(** * Arduino example sketches: bounce physics, VU-meter envelope tracker,
    paint serial protocol and LED-value sketch.

    Shallow embedding of the [loop()] bodies of the four sketches and the
    properties stated about them.  C [int] / [unsigned int] are modelled as
    [Z] with the wrap-around of a [bits]-wide machine integer written out;
    the width of [int] depends on the board (16 bits on AVR, 32 bits on the
    NRF52840 / M0 boards), so it is a parameter [ibits] of every sketch. *)

From Stdlib Require Import ZArith List Bool Lia.
From Stdlib Require Import Strings.String Strings.Ascii DecimalString.
Import ListNotations.

Local Open Scope Z_scope.

(** ** Machine integers *)

Module CInt.

(** Value of an unsigned [bits]-wide integer holding [z]. *)
Definition uwrap (bits z : Z) : Z := z mod 2 ^ bits.

(** Value of a signed (two's complement) [bits]-wide integer holding [z]. *)
Definition swrap (bits z : Z) : Z :=
  (z + 2 ^ (bits - 1)) mod 2 ^ bits - 2 ^ (bits - 1).

Definition in_int (bits z : Z) : Prop :=
  - 2 ^ (bits - 1) <= z < 2 ^ (bits - 1).

Definition in_uint (bits z : Z) : Prop := 0 <= z < 2 ^ bits.

(** [unsigned long] is 32 bits wide on every Arduino board. *)
Definition ULONG_BITS : Z := 32.

(** [constrain(amt, low, high)] of Arduino.h:
    [((amt)<(low)?(low):((amt)>(high)?(high):(amt)))]. *)
Definition constrain (amt low high : Z) : Z :=
  if amt <? low then low else if amt >? high then high else amt.

End CInt.

(** ** Bouncing ball (OLED animation sketch) *)

Module BallBounce.
Import CInt.

Definition SCREEN_WIDTH : Z := 128.
Definition SCREEN_HEIGHT : Z := 64.

(** [display.width()] / [display.height()] of the GFX driver give back the
    dimensions the display object was constructed with (no rotation is
    ever set by the sketch). *)
Definition display_width : Z := SCREEN_WIDTH.
Definition display_height : Z := SCREEN_HEIGHT.

Definition _ballRadius : Z := 5.

Record Ball : Set := mkBall
  { _xBall : Z; _yBall : Z; _xSpeed : Z; _ySpeed : Z }.

(** What a frame sends to the tone pin: [tone(pin, 100, 200)] on a
    horizontal bounce, [tone(pin, 200, 200)] on a vertical one. *)
Inductive Cue : Set := ToneX | ToneY.

(** [setup()]: ball in the centre, speeds drawn by [random(1, 4)]; the two
    random draws are the arguments. *)
Definition setup (rx ry : Z) : Ball :=
  {| _xBall := display_width / 2;
     _yBall := display_height / 2;
     _xSpeed := rx;
     _ySpeed := ry |}.

Section Frame.
Variable ibits : Z.

Definition hitX (x : Z) : bool :=
  (swrap ibits (x - _ballRadius) <=? 0)
  || (swrap ibits (x + _ballRadius) >=? display_width).

Definition hitY (y : Z) : bool :=
  (swrap ibits (y - _ballRadius) <=? 0)
  || (swrap ibits (y + _ballRadius) >=? display_height).

(** One pass of [loop()]: the ball after the frame and the cues played.
    The fps counter and the drawing calls do not touch the ball. *)
Definition loop (b : Ball) : Ball * list Cue :=
  let x := swrap ibits (_xBall b + _xSpeed b) in
  let y := swrap ibits (_yBall b + _ySpeed b) in
  let vx := if hitX x then swrap ibits (_xSpeed b * -1) else _xSpeed b in
  let vy := if hitY y then swrap ibits (_ySpeed b * -1) else _ySpeed b in
  ({| _xBall := x; _yBall := y; _xSpeed := vx; _ySpeed := vy |},
   (if hitX x then [ToneX] else []) ++ (if hitY y then [ToneY] else [])).

Definition step (b : Ball) : Ball := fst (loop b).

Fixpoint frames (n : nat) (b : Ball) : Ball :=
  match n with
  | O => b
  | S k => frames k (step b)
  end.

(** The states the sketch goes through: [setup()] followed by any
    number of frames. *)
Inductive reachable : Ball -> Prop :=
| reach_setup : forall rx ry,
    1 <= rx < 4 -> 1 <= ry < 4 -> reachable (setup rx ry)
| reach_loop : forall b, reachable b -> reachable (step b).

(** Strictly inside the horizontal (vertical) bounds: the collision
    test of [loop()] is false at this coordinate. *)
Definition insideX (x : Z) : Prop :=
  0 < x - _ballRadius /\ x + _ballRadius < display_width.
Definition insideY (y : Z) : Prop :=
  0 < y - _ballRadius /\ y + _ballRadius < display_height.

(** What holds of the ball between two frames: the speeds keep the
    magnitude drawn in [setup()], and on each axis the ball is strictly
    inside the bounds or heading back there with its next move. *)
Definition ball_inv (b : Ball) : Prop :=
  1 <= Z.abs (_xSpeed b) <= 3 /\ 1 <= Z.abs (_ySpeed b) <= 3
  /\ (insideX (_xBall b) \/ insideX (_xBall b + _xSpeed b))
  /\ (insideY (_yBall b) \/ insideY (_yBall b + _ySpeed b)).

End Frame.

End BallBounce.


(** ** VU meter (microphone level on a NeoPixel strand) *)

Module VUMeter.
Import CInt.

Definition MAX_ANALOG_INPUT : Z := 929.
Definition MIC_SAMPLE_WINDOW_MS : Z := 40.
Definition FADE_TIME_THRESHOLD_MS : Z := 10.

(** The globals of the sketch.  [_signalMax] and [_signalMin] are
    [unsigned int], [_peakToPeakFader] is [int], the two time stamps are
    [unsigned long].  [_peakToPeakFadeStep] is a global [int] that is never
    assigned after its initialisation to 1. *)
Record State : Set := mkState
  { _startSampleTimeMs : Z;
    _signalMax : Z;
    _signalMin : Z;
    _peakToPeakFader : Z;
    _startFadeTimeMs : Z }.

Definition _peakToPeakFadeStep : Z := 1.

(** What one pass of [loop()] reads from the outside: the microphone level
    given by [analogRead] and the value of each of its four [millis()]
    calls (window test, window restart, fade test, fade restart). *)
Record Inputs : Set := mkInputs
  { micLevel : Z;
    millis_window : Z;
    millis_restart : Z;
    millis_fade : Z;
    millis_faded : Z }.

(** The line printed on Serial when a window closes:
    [_signalMin, _signalMax, peakToPeak, _peakToPeakFader]. *)
Record Report : Set := mkReport
  { rep_min : Z; rep_max : Z; rep_peakToPeak : Z; rep_fader : Z }.

(** The initialisers of the globals; [-1] stored in an [unsigned long]. *)
Definition globals : State :=
  {| _startSampleTimeMs := uwrap ULONG_BITS (-1);
     _signalMax := 0;
     _signalMin := MAX_ANALOG_INPUT;
     _peakToPeakFader := 0;
     _startFadeTimeMs := uwrap ULONG_BITS (-1) |}.

(** [setup()]: both timers take the current [millis()]. *)
Definition setup (t_sample t_fade : Z) : State :=
  {| _startSampleTimeMs := t_sample;
     _signalMax := _signalMax globals;
     _signalMin := _signalMin globals;
     _peakToPeakFader := _peakToPeakFader globals;
     _startFadeTimeMs := t_fade |}.

(** A pass that reads [millis() = t] at each of its calls. *)
Definition at_ms (t mic : Z) : Inputs :=
  {| micLevel := mic; millis_window := t; millis_restart := t;
     millis_fade := t; millis_faded := t |}.

Section Loop.
Variable ibits : Z.

(** Running extremes: [if(micLevel > _signalMax) ... else if(micLevel <
    _signalMin) ...]; the [int] sample is converted to [unsigned int] for
    both comparisons and both assignments. *)
Definition observe (mic : Z) (s : State) : State :=
  let u := uwrap ibits mic in
  if u >? _signalMax s then
    {| _startSampleTimeMs := _startSampleTimeMs s;
       _signalMax := u;
       _signalMin := _signalMin s;
       _peakToPeakFader := _peakToPeakFader s;
       _startFadeTimeMs := _startFadeTimeMs s |}
  else if u <? _signalMin s then
    {| _startSampleTimeMs := _startSampleTimeMs s;
       _signalMax := _signalMax s;
       _signalMin := u;
       _peakToPeakFader := _peakToPeakFader s;
       _startFadeTimeMs := _startFadeTimeMs s |}
  else s.

(** [unsigned int peakToPeak = _signalMax - _signalMin]. *)
Definition peakToPeak (s : State) : Z :=
  uwrap ibits (_signalMax s - _signalMin s).

(** The test [millis() - _startSampleTimeMs > MIC_SAMPLE_WINDOW_MS]. *)
Definition window_elapsed (now : Z) (s : State) : bool :=
  uwrap ULONG_BITS (now - _startSampleTimeMs s) >? MIC_SAMPLE_WINDOW_MS.

(** The body of the window test: the fader is raised to the peak-to-peak
    value (compared as [unsigned int], stored back as [int]), the line is
    printed, the extremes go back to their sentinels and the window timer
    restarts. *)
Definition closeWindow (restart : Z) (s : State) : State * Report :=
  let p2p := peakToPeak s in
  let fader :=
    if uwrap ibits (_peakToPeakFader s) <? p2p
    then swrap ibits p2p else _peakToPeakFader s in
  ({| _startSampleTimeMs := restart;
      _signalMax := 0;
      _signalMin := MAX_ANALOG_INPUT;
      _peakToPeakFader := fader;
      _startFadeTimeMs := _startFadeTimeMs s |},
   {| rep_min := _signalMin s; rep_max := _signalMax s;
      rep_peakToPeak := p2p; rep_fader := fader |}).

(** The test that guards the fade-out at the end of [loop()], as written:
    [millis() - _startSampleTimeMs > FADE_TIME_THRESHOLD_MS]. *)
Definition fade_elapsed (now : Z) (s : State) : bool :=
  uwrap ULONG_BITS (now - _startSampleTimeMs s) >? FADE_TIME_THRESHOLD_MS.

(** The body of the fade test. *)
Definition fadeStep (restart : Z) (s : State) : State :=
  {| _startSampleTimeMs := _startSampleTimeMs s;
     _signalMax := _signalMax s;
     _signalMin := _signalMin s;
     _peakToPeakFader :=
       if _peakToPeakFader s >? 0
       then swrap ibits (_peakToPeakFader s - _peakToPeakFadeStep)
       else _peakToPeakFader s;
     _startFadeTimeMs := restart |}.

(** One pass of [loop()].  The pixels written to the strand between the
    window test and the fade test depend on the state but do not change
    it. *)
Definition loop (i : Inputs) (s : State) : State * option Report :=
  let s1 := observe (micLevel i) s in
  let '(s2, line) :=
    if window_elapsed (millis_window i) s1
    then let '(s', r) := closeWindow (millis_restart i) s1 in (s', Some r)
    else (s1, None) in
  let s3 :=
    if fade_elapsed (millis_fade i) s2
    then fadeStep (millis_faded i) s2 else s2 in
  (s3, line).

Definition step (i : Inputs) (s : State) : State := fst (loop i s).

(** Consecutive passes, with the lines they print. *)
Fixpoint run (ins : list Inputs) (s : State) : State * list Report :=
  match ins with
  | [] => (s, [])
  | i :: rest =>
      let '(s', line) := loop i s in
      let '(s'', lines) := run rest s' in
      (s'', match line with Some r => r :: lines | None => lines end)
  end.

(** The running minimum still holds its sentinel, or is at most the
    running maximum. *)
Definition extremes_inv (s : State) : Prop :=
  _signalMin s = MAX_ANALOG_INPUT \/ _signalMin s <= _signalMax s.

(** The state with another value in [_startFadeTimeMs]. *)
Definition with_fade_timer (t : Z) (s : State) : State :=
  {| _startSampleTimeMs := _startSampleTimeMs s;
     _signalMax := _signalMax s;
     _signalMin := _signalMin s;
     _peakToPeakFader := _peakToPeakFader s;
     _startFadeTimeMs := t |}.

(** Whether the fade timer itself has run for more than the threshold:
    [millis() - _startFadeTimeMs > FADE_TIME_THRESHOLD_MS]. *)
Definition fade_timer_elapsed (now : Z) (s : State) : bool :=
  uwrap ULONG_BITS (now - _startFadeTimeMs s) >? FADE_TIME_THRESHOLD_MS.

End Loop.

(** Four passes within one window opened at 0 ms: the samples 2, 9, 4, 7
    at 10, 20, 30 and 41 ms; the last pass finds the window elapsed. *)
Definition window_2_9_4_7 : list Inputs :=
  [at_ms 10 2; at_ms 20 9; at_ms 30 4; at_ms 41 7].

(** Two passes filling and closing the first window (600 at 20 ms, 100 at
    41 ms), so that the fader stands at 500 with the window timer
    restarted at 41 ms and the fade timer last restarted at 20 ms. *)
Definition first_window : list Inputs := [at_ms 20 600; at_ms 41 100].

End VUMeter.


(** ** The Arduino [String] operations the serial sketches use *)

Module WString.
Import CInt.

(** [long] is 32 bits wide on the boards concerned. *)
Definition LONG_BITS : Z := 32.

Definition length (s : string) : Z := Z.of_nat (String.length s).

(** [indexOf(ch)]: position of the first [ch], [-1] when there is none. *)
Fixpoint indexOf_from (ch : ascii) (s : string) (i : Z) : Z :=
  match s with
  | EmptyString => -1
  | String c rest =>
      if Ascii.eqb c ch then i else indexOf_from ch rest (i + 1)
  end.

Definition indexOf (ch : ascii) (s : string) : Z := indexOf_from ch s 0.

(** [substring(left, right)]: the bounds are swapped when [left > right],
    the result is empty when [left] is past the end, [right] is cut at the
    length; the characters [left .. right - 1] are returned. *)
Definition substring (left right : Z) (s : string) : string :=
  let l := if left >? right then right else left in
  let r := if left >? right then left else right in
  if l >=? length s then ""%string
  else
    let r' := if r >? length s then length s else r in
    String.substring (Z.to_nat l) (Z.to_nat (r' - l)) s.

(** C [isspace] and [isdigit] in the C locale. *)
Definition isspace (c : ascii) : bool :=
  let n := Z.of_N (N_of_ascii c) in
  (n =? 32) || ((9 <=? n) && (n <=? 13)).

Definition isdigit (c : ascii) : bool :=
  let n := Z.of_N (N_of_ascii c) in
  (48 <=? n) && (n <=? 57).

Definition digit_value (c : ascii) : Z := Z.of_N (N_of_ascii c) - 48.

Fixpoint skip_spaces (s : string) : string :=
  match s with
  | String c rest => if isspace c then skip_spaces rest else s
  | EmptyString => s
  end.

(** The number read off the leading decimal digits, [acc] so far. *)
Fixpoint digits (acc : Z) (s : string) : Z :=
  match s with
  | String c rest =>
      if isdigit c then digits (10 * acc + digit_value c) rest else acc
  | EmptyString => acc
  end.

(** [atol]: blanks are skipped, an optional sign is read, then decimal
    digits up to the first other character; no digits give 0.  The
    accumulation is done in a [long] (the result of a number that does not
    fit is the wrapped value, as in avr-libc). *)
Definition atol (s : string) : Z :=
  match skip_spaces s with
  | String "-"%char rest => swrap LONG_BITS (- digits 0 rest)
  | String "+"%char rest => swrap LONG_BITS (digits 0 rest)
  | rest => swrap LONG_BITS (digits 0 rest)
  end.

(** [toInt()] is [atol] on the buffer. *)
Definition toInt (s : string) : Z := atol s.

End WString.

(** ** Paint sketch: brush selected over serial and by buttons *)

Module PaintIO.
Import CInt.

(** [enum BrushType] and [enum BrushFillMode]: the variables hold the
    integer value of the enumerator, or whatever integer a cast put
    there. *)
Definition CIRCLE : Z := 0.
Definition SQUARE : Z := 1.
Definition TRIANGLE : Z := 2.
Definition NUM_BRUSH_TYPES : Z := 3.

Definition FILL : Z := 0.
Definition OUTLINE : Z := 1.
Definition NUM_FILL_MODES : Z := 2.

Definition LOW : Z := 0.
Definition HIGH : Z := 1.

Record State : Set := mkState
  { _curBrushType : Z;
    _curBrushFillMode : Z;
    _lastShapeSelectionButtonVal : Z;
    _lastDrawModeButtonVal : Z;
    _lastClearDrawingButtonVal : Z }.

Definition globals : State :=
  {| _curBrushType := CIRCLE;
     _curBrushFillMode := FILL;
     _lastShapeSelectionButtonVal := HIGH;
     _lastDrawModeButtonVal := HIGH;
     _lastClearDrawingButtonVal := HIGH |}.

(** The brush type is one of the named shapes, the fill mode one of the
    named modes. *)
Definition brush_named (s : State) : Prop :=
  _curBrushType s = CIRCLE \/ _curBrushType s = SQUARE
  \/ _curBrushType s = TRIANGLE.

Definition fill_named (s : State) : Prop :=
  _curBrushFillMode s = FILL \/ _curBrushFillMode s = OUTLINE.

(** A received line holds a comma somewhere. *)
Definition has_comma (line : string) : Prop :=
  In ","%char (list_ascii_of_string line).

Section Sketch.
Variable ibits : Z.

(** [checkAndParseSerial()].  [rx] is [None] when [Serial.available()] is
    not positive, and otherwise the line given by [readStringUntil('\n')].
    The result carries the debug line echoed on Serial. *)
Definition checkAndParseSerial (rx : option string) (s : State)
  : State * option string :=
  match rx with
  | None => (s, None)
  | Some rcvdSerialData =>
      let startIndex := 0 in
      let endIndex := WString.indexOf ","%char rcvdSerialData in
      let s' :=
        if negb (endIndex =? -1) then
          let strBrushType :=
            WString.substring (uwrap ibits startIndex) (uwrap ibits endIndex)
                              rcvdSerialData in
          let brushType := swrap ibits (WString.toInt strBrushType) in
          let startIndex := swrap ibits (endIndex + 1) in
          let endIndex := swrap ibits (WString.length rcvdSerialData) in
          let strBrushFillMode :=
            WString.substring (uwrap ibits startIndex) (uwrap ibits endIndex)
                              rcvdSerialData in
          let brushFillMode := swrap ibits (WString.toInt strBrushFillMode) in
          {| _curBrushType := brushType;
             _curBrushFillMode := brushFillMode;
             _lastShapeSelectionButtonVal := _lastShapeSelectionButtonVal s;
             _lastDrawModeButtonVal := _lastDrawModeButtonVal s;
             _lastClearDrawingButtonVal := _lastClearDrawingButtonVal s |}
        else s in
      (s', Some ("# Arduino Received: '" ++ rcvdSerialData ++ "'")%string)
  end.

(** [readBrushButtons()]; the arguments are the two [digitalRead]
    values. *)
Definition readBrushButtons
  (shapeSelectionButtonVal shapeDrawModeButtonVal : Z) (s : State) : State :=
  let brush :=
    if (shapeSelectionButtonVal =? LOW)
       && negb (shapeSelectionButtonVal =? _lastShapeSelectionButtonVal s)
    then
      let next := swrap ibits (_curBrushType s + 1) in
      if next >=? NUM_BRUSH_TYPES then CIRCLE else next
    else _curBrushType s in
  let fill :=
    if (shapeDrawModeButtonVal =? LOW)
       && negb (shapeDrawModeButtonVal =? _lastDrawModeButtonVal s)
    then
      let next := swrap ibits (_curBrushFillMode s + 1) in
      if next >=? NUM_FILL_MODES then FILL else next
    else _curBrushFillMode s in
  {| _curBrushType := brush;
     _curBrushFillMode := fill;
     _lastShapeSelectionButtonVal := shapeSelectionButtonVal;
     _lastDrawModeButtonVal := shapeDrawModeButtonVal;
     _lastClearDrawingButtonVal := _lastClearDrawingButtonVal s |}.

(** [checkClearDrawingButton()]. *)
Definition checkClearDrawingButton (clearDrawingButtonVal : Z) (s : State)
  : State * bool :=
  ({| _curBrushType := _curBrushType s;
      _curBrushFillMode := _curBrushFillMode s;
      _lastShapeSelectionButtonVal := _lastShapeSelectionButtonVal s;
      _lastDrawModeButtonVal := _lastDrawModeButtonVal s;
      _lastClearDrawingButtonVal := clearDrawingButtonVal |},
   (clearDrawingButtonVal =? LOW)
   && negb (clearDrawingButtonVal =? _lastClearDrawingButtonVal s)).

End Sketch.

End PaintIO.

(** ** LED-value sketch: a number received on Serial1 drives the LED pin *)

Module LedValue.
Import CInt.

(** What a pass of [loop()] does besides waiting: the level given to
    [analogWrite] and the line echoed on Serial. *)
Record Output : Set := mkOutput
  { analog_level : option Z; echo : option string }.

(** One pass of [loop()]; [rx] is [None] when [Serial1.available()] is not
    positive, otherwise the line given by [readStringUntil('\n')]. *)
Definition loop (ibits : Z) (rx : option string) : Output :=
  match rx with
  | None => {| analog_level := None; echo := None |}
  | Some rcvdSerialData =>
      let ledValue := swrap ibits (WString.toInt rcvdSerialData) in
      let ledValue := constrain ledValue 0 255 in
      {| analog_level := Some ledValue;
         echo := Some ("Arduino received: '" ++ rcvdSerialData ++ "'")%string |}
  end.

End LedValue.


From Stdlib Require DecimalPos DecimalZ.

(** ** Library routines used by the display side of the sketches *)

Module Wiring.
Import CInt.

(** [long map(long x, long in_min, long in_max, long out_min, long out_max)]
    of the Arduino core:
    [(x - in_min) * (out_max - out_min) / (in_max - in_min) + out_min],
    in [long] arithmetic, the division truncating towards zero. *)
Definition map (x in_min in_max out_min out_max : Z) : Z :=
  swrap WString.LONG_BITS
    (Z.quot
       (swrap WString.LONG_BITS
          (swrap WString.LONG_BITS (x - in_min)
           * swrap WString.LONG_BITS (out_max - out_min)))
       (swrap WString.LONG_BITS (in_max - in_min))
     + out_min).

(** A strand as the sketch sees it: the packed colour each pixel was last
    given. *)
Definition Strip : Set := list Z.

Fixpoint update (n : nat) (c : Z) (strip : Strip) : Strip :=
  match strip, n with
  | [], _ => []
  | _ :: rest, O => c :: rest
  | p :: rest, S k => p :: update k c rest
  end.

(** [setPixelColor(n, c)]: pixel [n] takes the colour, and nothing happens
    when [n] is not a pixel of the strand. *)
Definition setPixelColor (n c : Z) (strip : Strip) : Strip :=
  if (0 <=? n) && (n <? Z.of_nat (List.length strip))
  then update (Z.to_nat n) c strip else strip.

(** The decimal text of an integer, as a sender prints it. *)
Definition decimal (n : Z) : string := NilEmpty.string_of_int (Z.to_int n).

(** Text at which the reading of a number stops: nothing, or text that
    starts with something else than a digit. *)
Definition stops_number (rest : string) : Prop :=
  match rest with
  | EmptyString => True
  | String c _ => WString.isdigit c = false
  end.

(** Text made of blanks only. *)
Definition blanks (ws : string) : Prop :=
  Forall (fun c => WString.isspace c = true) (list_ascii_of_string ws).

(** A line that does not start, after its blanks, with a digit or a
    sign. *)
Definition not_a_number (line : string) : Prop :=
  match WString.skip_spaces line with
  | EmptyString => True
  | String c _ =>
      WString.isdigit c = false /\ c <> "-"%char /\ c <> "+"%char
  end.

End Wiring.

(** ** VU meter: sample sequences and the strand *)

Module VUDisplay.
Import CInt.

Definition NUM_NEOPIXELS : Z := 30.
Definition MAX_MIC_LEVEL : Z := 1023.
Definition MAX_SATURATION_VALUE : Z := 255.

(** A list of samples taken into the running extremes one after the
    other. *)
Definition observe_all (ibits : Z) (mics : list Z) (s : VUMeter.State)
  : VUMeter.State :=
  fold_left (fun st mic => VUMeter.observe ibits mic st) mics s.

(** The window opened at [t0] is not found elapsed by this pass. *)
Definition window_open (t0 : Z) (i : VUMeter.Inputs) : Prop :=
  uwrap ULONG_BITS (VUMeter.millis_window i - t0)
  <= VUMeter.MIC_SAMPLE_WINDOW_MS.

(** The fade test of this pass succeeds for a window opened at [t0]. *)
Definition fade_due (t0 : Z) (i : VUMeter.Inputs) : Prop :=
  uwrap ULONG_BITS (VUMeter.millis_fade i - t0)
  > VUMeter.FADE_TIME_THRESHOLD_MS.

Section Strand.
Variable ibits : Z.

(** The [long] that the product [MAX_HUE_VALUE * .8] is converted to when
    given to [map]. *)
Variable hue_span : Z.

(** [ColorHSV(hue, sat, val)] of the strand driver. *)
Variable ColorHSV : Z -> Z -> Z -> Z.

(** [numNeoPixelsToIlluminate]: [map] of the fader from [0, MAX_MIC_LEVEL]
    to [0, NUM_NEOPIXELS], stored in an [unsigned int] and constrained to
    [0, NUM_NEOPIXELS]. *)
Definition numNeoPixelsToIlluminate (fader : Z) : Z :=
  let n := uwrap ibits (Wiring.map fader 0 MAX_MIC_LEVEL 0 NUM_NEOPIXELS) in
  uwrap ibits (constrain n 0 NUM_NEOPIXELS).

(** The colour given to pixel [pxl] when it is lit. *)
Definition pixelColor (pxl : Z) : Z :=
  let hueVal := swrap ibits (Wiring.map pxl 0 NUM_NEOPIXELS 0 hue_span) in
  ColorHSV hueVal MAX_SATURATION_VALUE 150.

(** The body of [for(int pxl = 0; pxl < NUM_NEOPIXELS; pxl++)], from
    [pxl] on; [fuel] bounds the number of turns. *)
Fixpoint pixel_loop (fuel : nat) (pxl : Z) (lit : Z) (strip : Wiring.Strip)
  : Wiring.Strip :=
  if pxl <? NUM_NEOPIXELS then
    match fuel with
    | O => strip
    | S k =>
        let rgbColor := pixelColor pxl in
        let strip' :=
          if uwrap ibits pxl <? lit
          then Wiring.setPixelColor pxl rgbColor strip
          else Wiring.setPixelColor pxl 0 strip in
        pixel_loop k (swrap ibits (pxl + 1)) lit strip'
    end
  else strip.

(** What a pass writes to the strand for a given fader. *)
Definition show_level (fader : Z) (strip : Wiring.Strip) : Wiring.Strip :=
  pixel_loop (Z.to_nat NUM_NEOPIXELS) 0 (numNeoPixelsToIlluminate fader) strip.

End Strand.

(** Every close of a window in a run finds the running minimum at or
    below the running maximum. *)
Fixpoint sane_run (ibits : Z) (ins : list VUMeter.Inputs) (s : VUMeter.State)
  : Prop :=
  match ins with
  | [] => True
  | i :: rest =>
      (VUMeter.window_elapsed (VUMeter.millis_window i)
         (VUMeter.observe ibits (VUMeter.micLevel i) s) = true ->
       VUMeter._signalMin (VUMeter.observe ibits (VUMeter.micLevel i) s)
       <= VUMeter._signalMax (VUMeter.observe ibits (VUMeter.micLevel i) s))
      /\ sane_run ibits rest (VUMeter.step ibits i s)
  end.

End VUDisplay.

(** ** Paint sketch: what [drawBrushInfo] shows for a brush *)

Module PaintDraw.

(** The drawing primitive [drawBrushInfo] calls for the shape. *)
Inductive ShapeCall : Set :=
| fillRoundRect | drawRoundRect
| fillRect | drawRect
| fillTriangle | drawTriangle.

(** The primitive chosen by the chain of tests on [_curBrushType] and
    [_curBrushFillMode]; none when no test on the brush type succeeds. *)
Definition shapeCall (s : PaintIO.State) : option ShapeCall :=
  if PaintIO._curBrushType s =? PaintIO.CIRCLE then
    Some (if PaintIO._curBrushFillMode s =? PaintIO.FILL
          then fillRoundRect else drawRoundRect)
  else if PaintIO._curBrushType s =? PaintIO.SQUARE then
    Some (if PaintIO._curBrushFillMode s =? PaintIO.FILL
          then fillRect else drawRect)
  else if PaintIO._curBrushType s =? PaintIO.TRIANGLE then
    Some (if PaintIO._curBrushFillMode s =? PaintIO.FILL
          then fillTriangle else drawTriangle)
  else None.

(** [strBrushInfo], the caption printed above the shape. *)
Definition strBrushInfo (s : PaintIO.State) : string :=
  let name :=
    if PaintIO._curBrushType s =? PaintIO.CIRCLE then "Circle: "%string
    else if PaintIO._curBrushType s =? PaintIO.SQUARE then "Square: "%string
    else if PaintIO._curBrushType s =? PaintIO.TRIANGLE
         then "Triangle: "%string
         else ""%string in
  String.append name
    (if PaintIO._curBrushFillMode s =? PaintIO.FILL
     then "Fill"%string else "Outline"%string).

(** The part of a pass of [loop()] that changes the brush: the serial
    line first, the buttons next, the clear button last. *)
Definition loop_brush (ibits : Z) (rx : option string)
  (shapeSel drawMode clear : Z) (s : PaintIO.State) : PaintIO.State * bool :=
  let s1 := fst (PaintIO.checkAndParseSerial ibits rx s) in
  let s2 := PaintIO.readBrushButtons ibits shapeSel drawMode s1 in
  PaintIO.checkClearDrawingButton clear s2.


End PaintDraw.

(** * Properties *)

(** ** Machine integers *)

Lemma pow2_width_lower (bits : Z) :
  16 <= bits -> 65536 <= 2 ^ bits /\ 32768 <= 2 ^ (bits - 1).
Proof.
  intros Hb. split.
  - change 65536 with (2 ^ 16). apply Z.pow_le_mono_r; lia.
  - change 32768 with (2 ^ 15). apply Z.pow_le_mono_r; lia.
Qed.

Lemma pow2_width_double (bits : Z) :
  1 <= bits -> 2 ^ bits = 2 * 2 ^ (bits - 1) /\ 0 < 2 ^ (bits - 1).
Proof.
  intros Hb. split.
  - rewrite <- Z.pow_succ_r by lia. f_equal. lia.
  - apply Z.pow_pos_nonneg; lia.
Qed.

Lemma swrap_id (bits z : Z) :
  1 <= bits -> CInt.in_int bits z -> CInt.swrap bits z = z.
Proof.
  unfold CInt.in_int, CInt.swrap. intros Hb Hz.
  destruct (pow2_width_double bits Hb) as [Hd Hp].
  rewrite Z.mod_small by lia. lia.
Qed.

Lemma swrap_in_int (bits z : Z) :
  1 <= bits -> CInt.in_int bits (CInt.swrap bits z).
Proof.
  unfold CInt.in_int, CInt.swrap. intros Hb.
  destruct (pow2_width_double bits Hb) as [Hd Hp].
  pose proof (Z.mod_pos_bound (z + 2 ^ (bits - 1)) (2 ^ bits)). lia.
Qed.

Lemma swrap_small (bits z : Z) :
  16 <= bits -> -32768 <= z < 32768 -> CInt.swrap bits z = z.
Proof.
  intros Hb Hz. apply swrap_id; [lia|].
  unfold CInt.in_int. destruct (pow2_width_lower bits Hb). lia.
Qed.

Lemma uwrap_small (bits z : Z) :
  16 <= bits -> 0 <= z < 65536 -> CInt.uwrap bits z = z.
Proof.
  intros Hb Hz. unfold CInt.uwrap.
  destruct (pow2_width_lower bits Hb). apply Z.mod_small. lia.
Qed.

Lemma uwrap_in_uint (bits z : Z) :
  0 <= bits -> CInt.in_uint bits (CInt.uwrap bits z).
Proof.
  intros Hb. unfold CInt.in_uint, CInt.uwrap.
  apply Z.mod_pos_bound. apply Z.pow_pos_nonneg; lia.
Qed.

(** Multiplying an [int] by [-1] keeps its magnitude, also at the most
    negative value, which the wrap-around sends to itself. *)
Lemma swrap_negate_abs (bits v : Z) :
  1 <= bits -> CInt.in_int bits v ->
  Z.abs (CInt.swrap bits (v * -1)) = Z.abs v.
Proof.
  intros Hb Hv. unfold CInt.in_int in Hv.
  destruct (pow2_width_double bits Hb) as [Hd Hp].
  destruct (Z.eq_dec v (- 2 ^ (bits - 1))) as [-> | Hne].
  - unfold CInt.swrap.
    replace (- 2 ^ (bits - 1) * -1 + 2 ^ (bits - 1)) with (1 * 2 ^ bits) by lia.
    rewrite Z.mod_mul by lia. lia.
  - rewrite swrap_id; [lia | lia | unfold CInt.in_int; lia].
Qed.

Lemma constrain_spec (amt low high : Z) :
  low <= high ->
  CInt.constrain amt low high = Z.max low (Z.min high amt)
  /\ low <= CInt.constrain amt low high <= high.
Proof.
  intros Hlh. unfold CInt.constrain.
  destruct (Z.ltb_spec amt low); [lia|].
  destruct (amt >? high) eqn:E; [apply Z.gtb_lt in E | rewrite Z.gtb_ltb in E; apply Z.ltb_ge in E]; lia.
Qed.

(** ** Bouncing ball *)

Section BallBounceFacts.
Import BallBounce.
Variable ibits : Z.
Hypothesis ibits_ge : 16 <= ibits.

Lemma hitX_small (x : Z) :
  -30000 <= x <= 30000 ->
  hitX ibits x = ((x - _ballRadius <=? 0) || (x + _ballRadius >=? display_width)).
Proof.
  intros Hx. unfold hitX, _ballRadius.
  rewrite !swrap_small by lia. reflexivity.
Qed.

Lemma hitY_small (y : Z) :
  -30000 <= y <= 30000 ->
  hitY ibits y = ((y - _ballRadius <=? 0) || (y + _ballRadius >=? display_height)).
Proof.
  intros Hy. unfold hitY, _ballRadius.
  rewrite !swrap_small by lia. reflexivity.
Qed.

Lemma hitX_false_inside (x : Z) :
  -30000 <= x <= 30000 -> (hitX ibits x = false <-> insideX x).
Proof.
  intros Hx. rewrite hitX_small by lia.
  unfold insideX, _ballRadius, display_width, SCREEN_WIDTH.
  rewrite orb_false_iff, Z.leb_gt, Z.geb_leb, Z.leb_gt. tauto.
Qed.

Lemma hitY_false_inside (y : Z) :
  -30000 <= y <= 30000 -> (hitY ibits y = false <-> insideY y).
Proof.
  intros Hy. rewrite hitY_small by lia.
  unfold insideY, _ballRadius, display_height, SCREEN_HEIGHT.
  rewrite orb_false_iff, Z.leb_gt, Z.geb_leb, Z.leb_gt. tauto.
Qed.

Lemma ball_inv_bounds (b : Ball) :
  ball_inv b ->
  3 <= _xBall b <= 125 /\ 3 <= _yBall b <= 61.
Proof.
  unfold ball_inv, insideX, insideY, _ballRadius, display_width,
    display_height, SCREEN_WIDTH, SCREEN_HEIGHT.
  lia.
Qed.

Lemma ball_inv_setup (rx ry : Z) :
  1 <= rx < 4 -> 1 <= ry < 4 -> ball_inv (setup rx ry).
Proof.
  intros Hx Hy.
  unfold ball_inv, setup, insideX, insideY, _ballRadius, display_width,
    display_height, SCREEN_WIDTH, SCREEN_HEIGHT; simpl.
  change (128 / 2) with 64. change (64 / 2) with 32. lia.
Qed.

Lemma ball_inv_step (b : Ball) : ball_inv b -> ball_inv (step ibits b).
Proof.
  intros Hinv. pose proof (ball_inv_bounds b Hinv) as [Hbx Hby].
  destruct b as [x y vx vy]. unfold ball_inv in *. simpl in *.
  destruct Hinv as (Hvx & Hvy & Hx & Hy).
  rewrite !(swrap_small ibits (x + vx)), !(swrap_small ibits (y + vy)) by lia.
  repeat split.
  - destruct (hitX ibits (x + vx)); [rewrite swrap_small|]; lia.
  - destruct (hitX ibits (x + vx)); [rewrite swrap_small|]; lia.
  - destruct (hitY ibits (y + vy)); [rewrite swrap_small|]; lia.
  - destruct (hitY ibits (y + vy)); [rewrite swrap_small|]; lia.
  - destruct (hitX ibits (x + vx)) eqn:E.
    + rewrite swrap_small by lia. right.
      replace (x + vx + vx * -1) with x by lia.
      destruct Hx as [Hx | Hx]; [exact Hx|].
      apply hitX_false_inside in Hx; [congruence | lia].
    + left. apply hitX_false_inside; [lia | exact E].
  - destruct (hitY ibits (y + vy)) eqn:E.
    + rewrite swrap_small by lia. right.
      replace (y + vy + vy * -1) with y by lia.
      destruct Hy as [Hy | Hy]; [exact Hy|].
      apply hitY_false_inside in Hy; [congruence | lia].
    + left. apply hitY_false_inside; [lia | exact E].
Qed.

Lemma reachable_ball_inv (b : Ball) : reachable ibits b -> ball_inv b.
Proof.
  induction 1 as [rx ry Hx Hy | b Hb IH].
  - apply ball_inv_setup; assumption.
  - apply ball_inv_step; assumption.
Qed.

End BallBounceFacts.

Lemma reachable_frames (ibits : Z) (n : nat) (b : BallBounce.Ball) :
  BallBounce.reachable ibits b ->
  BallBounce.reachable ibits (BallBounce.frames ibits n b).
Proof.
  revert b. induction n as [|k IH]; intros b Hb; simpl.
  - exact Hb.
  - apply IH. constructor. exact Hb.
Qed.

Lemma step_speed_in_int (ibits : Z) (b : BallBounce.Ball) :
  1 <= ibits ->
  CInt.in_int ibits (BallBounce._xSpeed b) ->
  CInt.in_int ibits (BallBounce._ySpeed b) ->
  CInt.in_int ibits (BallBounce._xSpeed (BallBounce.step ibits b))
  /\ CInt.in_int ibits (BallBounce._ySpeed (BallBounce.step ibits b)).
Proof.
  intros Hb Hx Hy. destruct b as [x y vx vy]; simpl in *.
  split.
  - destruct (BallBounce.hitX _ _); [apply swrap_in_int; lia | exact Hx].
  - destruct (BallBounce.hitY _ _); [apply swrap_in_int; lia | exact Hy].
Qed.

Lemma step_speed_abs (ibits : Z) (b : BallBounce.Ball) :
  1 <= ibits ->
  CInt.in_int ibits (BallBounce._xSpeed b) ->
  CInt.in_int ibits (BallBounce._ySpeed b) ->
  Z.abs (BallBounce._xSpeed (BallBounce.step ibits b))
  = Z.abs (BallBounce._xSpeed b)
  /\ Z.abs (BallBounce._ySpeed (BallBounce.step ibits b))
     = Z.abs (BallBounce._ySpeed b).
Proof.
  intros Hb Hx Hy. destruct b as [x y vx vy]; simpl in *.
  split.
  - destruct (BallBounce.hitX _ _); [apply swrap_negate_abs; assumption | reflexivity].
  - destruct (BallBounce.hitY _ _); [apply swrap_negate_abs; assumption | reflexivity].
Qed.

(** C3: in a run of the sketch ([setup()] then any number of frames), a
    frame changes the X speed only when the moved ball meets the test
    [x - r <= 0 || x + r >= width]; such a frame is a crossing (the ball
    was strictly inside before the move and is not after it), it negates
    the non-zero X speed once and plays the X tone, and the frame that
    follows finds the ball strictly inside again and leaves the X speed
    alone.  So the sign flips once per crossing and not again before the
    ball has come back inside and crossed anew. *)
Theorem bounce_x_flips_once_per_crossing
  (ibits : Z) (n : nat) (rx ry : Z) :
  16 <= ibits -> 1 <= rx < 4 -> 1 <= ry < 4 ->
  let b := BallBounce.frames ibits n (BallBounce.setup rx ry) in
  let b1 := BallBounce.step ibits b in
  let b2 := BallBounce.step ibits b1 in
  (BallBounce.hitX ibits (BallBounce._xBall b1) = false ->
     BallBounce._xSpeed b1 = BallBounce._xSpeed b)
  /\ (BallBounce.hitX ibits (BallBounce._xBall b1) = true ->
        BallBounce.insideX (BallBounce._xBall b)
        /\ ~ BallBounce.insideX (BallBounce._xBall b1)
        /\ BallBounce._xSpeed b <> 0
        /\ BallBounce._xSpeed b1 = - BallBounce._xSpeed b
        /\ In BallBounce.ToneX (snd (BallBounce.loop ibits b))
        /\ BallBounce.insideX (BallBounce._xBall b2)
        /\ BallBounce.hitX ibits (BallBounce._xBall b2) = false
        /\ BallBounce._xSpeed b2 = BallBounce._xSpeed b1).
Proof.
  intros Hbits Hrx Hry b b1 b2.
  assert (Hreach : BallBounce.reachable ibits b).
  { apply reachable_frames. constructor; assumption. }
  pose proof (reachable_ball_inv ibits Hbits b Hreach) as Hinv.
  pose proof (ball_inv_step ibits Hbits b Hinv) as Hinv1.
  pose proof (ball_inv_bounds b Hinv) as [Hbx _].
  pose proof (ball_inv_bounds b1 Hinv1) as [Hbx1 _].
  subst b2 b1. remember b as b0 eqn:Eb. clear Eb b Hreach.
  destruct b0 as [x y vx vy].
  unfold BallBounce.ball_inv in Hinv, Hinv1. simpl in *.
  rewrite !(swrap_small ibits (x + vx)) in * by lia.
  destruct Hinv as (Hvx & Hvy & Hx & Hy).
  split.
  - intros E. rewrite E. reflexivity.
  - intros E. rewrite E in *. simpl.
    rewrite swrap_small in * by lia.
    assert (Hout : ~ BallBounce.insideX (x + vx)).
    { intros Hin.
      assert (Hr : -30000 <= x + vx <= 30000) by lia.
      apply (proj2 (hitX_false_inside ibits Hbits (x + vx) Hr)) in Hin.
      congruence. }
    assert (Hin : BallBounce.insideX x) by tauto.
    replace (x + vx + vx * -1) with x in * by lia.
    assert (Hno : BallBounce.hitX ibits x = false).
    { apply (hitX_false_inside ibits Hbits x); [lia | exact Hin]. }
    rewrite (swrap_small ibits x) by lia.
    rewrite Hno.
    repeat split; try (exact Hout || apply Hin || lia || tauto).
Qed.

(** The run of 19 frames after [setup()] with both speeds 3 brings the
    ball to x = 121; frame 20 crosses the right edge. *)
Lemma bounce_x_flips_once_per_crossing_witness :
  BallBounce.hitX 16
    (BallBounce._xBall
       (BallBounce.step 16 (BallBounce.frames 16 19 (BallBounce.setup 3 3))))
  = true
  /\ BallBounce._xSpeed
       (BallBounce.step 16 (BallBounce.frames 16 19 (BallBounce.setup 3 3)))
     = - BallBounce._xSpeed (BallBounce.frames 16 19 (BallBounce.setup 3 3)).
Proof.
  split; [vm_compute; reflexivity|].
  apply (bounce_x_flips_once_per_crossing 16 19 3 3); [lia | lia | lia |].
  vm_compute; reflexivity.
Defined.

(** C6: whatever the number of frames, and so of reflections, |vx| and
    |vy| stay what they were; a frame leaves each speed component alone or
    multiplies it by -1, the X component exactly when the X test holds and
    the Y component exactly when the Y test holds. *)
Theorem bounce_speed_magnitude_invariant
  (ibits : Z) (n : nat) (b : BallBounce.Ball) :
  1 <= ibits ->
  CInt.in_int ibits (BallBounce._xSpeed b) ->
  CInt.in_int ibits (BallBounce._ySpeed b) ->
  Z.abs (BallBounce._xSpeed (BallBounce.frames ibits n b))
  = Z.abs (BallBounce._xSpeed b)
  /\ Z.abs (BallBounce._ySpeed (BallBounce.frames ibits n b))
     = Z.abs (BallBounce._ySpeed b)
  /\ BallBounce._xSpeed (BallBounce.step ibits b)
     = (if BallBounce.hitX ibits (BallBounce._xBall (BallBounce.step ibits b))
        then CInt.swrap ibits (BallBounce._xSpeed b * -1)
        else BallBounce._xSpeed b)
  /\ BallBounce._ySpeed (BallBounce.step ibits b)
     = (if BallBounce.hitY ibits (BallBounce._yBall (BallBounce.step ibits b))
        then CInt.swrap ibits (BallBounce._ySpeed b * -1)
        else BallBounce._ySpeed b).
Proof.
  intros Hbits Hx Hy.
  assert (Habs : Z.abs (BallBounce._xSpeed (BallBounce.frames ibits n b))
                 = Z.abs (BallBounce._xSpeed b)
                 /\ Z.abs (BallBounce._ySpeed (BallBounce.frames ibits n b))
                    = Z.abs (BallBounce._ySpeed b)).
  { revert b Hx Hy. induction n as [|k IH]; intros b Hx Hy; simpl.
    - split; reflexivity.
    - destruct (step_speed_in_int ibits b Hbits Hx Hy) as [Hx' Hy'].
      destruct (step_speed_abs ibits b Hbits Hx Hy) as [Ex Ey].
      destruct (IH (BallBounce.step ibits b) Hx' Hy') as [Ix Iy].
      split; congruence. }
  destruct Habs as [Ax Ay].
  repeat split; try assumption; destruct b; reflexivity.
Qed.

Lemma bounce_speed_magnitude_invariant_witness :
  Z.abs (BallBounce._xSpeed (BallBounce.frames 16 20 (BallBounce.setup 3 2)))
  = 3
  /\ Z.abs (BallBounce._ySpeed (BallBounce.frames 16 20 (BallBounce.setup 3 2)))
     = 2.
Proof.
  pose proof (bounce_speed_magnitude_invariant 16 20 (BallBounce.setup 3 2))
    as H.
  destruct H as (Hx & Hy & _).
  - lia.
  - unfold CInt.in_int; simpl; lia.
  - unfold CInt.in_int; simpl; lia.
  - split; [exact Hx | exact Hy].
Defined.

(** ** VU meter *)

(** C1: the four passes of [window_2_9_4_7] (samples 2, 9, 4, 7, the
    last one closing the window opened by [setup()] with fresh sentinels)
    print one line, and its peak-to-peak value is 5, not 9 - 2 = 7: the
    first sample raises the maximum and so, by the [else], does not lower
    the minimum, which ends at 4.  Both widths of [int] agree. *)
Theorem window_2_9_4_7_peak_to_peak :
  snd (VUMeter.run 16 VUMeter.window_2_9_4_7 (VUMeter.setup 0 0))
  = [ VUMeter.mkReport 4 9 5 5 ]
  /\ snd (VUMeter.run 32 VUMeter.window_2_9_4_7 (VUMeter.setup 0 0))
     = [ VUMeter.mkReport 4 9 5 5 ].
Proof.
  split; vm_compute; reflexivity.
Qed.

(** C2: after [first_window] the fader is 500, the window timer was
    restarted at 41 ms and the fade timer at 20 ms.  A pass at 51 ms finds
    31 ms gone on the fade timer and a positive fader, yet leaves the
    fader at 500 and the fade timer at 20: the test reads the window
    timer, on which only 10 ms have gone. *)
Theorem fade_test_reads_window_timer :
  let s16 := fst (VUMeter.run 16 VUMeter.first_window (VUMeter.setup 0 0)) in
  let s32 := fst (VUMeter.run 32 VUMeter.first_window (VUMeter.setup 0 0)) in
  (VUMeter.fade_timer_elapsed 51 s16 = true
   /\ VUMeter._peakToPeakFader s16 = 500
   /\ VUMeter._peakToPeakFader (VUMeter.step 16 (VUMeter.at_ms 51 300) s16) = 500
   /\ VUMeter._startFadeTimeMs (VUMeter.step 16 (VUMeter.at_ms 51 300) s16) = 20)
  /\ (VUMeter.fade_timer_elapsed 51 s32 = true
      /\ VUMeter._peakToPeakFader s32 = 500
      /\ VUMeter._peakToPeakFader (VUMeter.step 32 (VUMeter.at_ms 51 300) s32) = 500
      /\ VUMeter._startFadeTimeMs (VUMeter.step 32 (VUMeter.at_ms 51 300) s32) = 20).
Proof.
  vm_compute. repeat split.
Qed.

(** The fade-out is taken exactly when the window timer, not the fade
    timer, has run for more than the threshold. *)
Lemma fade_follows_window_timer (ibits : Z) (i : VUMeter.Inputs) (s : VUMeter.State) :
  VUMeter.window_elapsed (VUMeter.millis_window i)
    (VUMeter.observe ibits (VUMeter.micLevel i) s) = false ->
  VUMeter.step ibits i s
  = (if VUMeter.fade_elapsed (VUMeter.millis_fade i)
          (VUMeter.observe ibits (VUMeter.micLevel i) s)
     then VUMeter.fadeStep ibits (VUMeter.millis_faded i)
            (VUMeter.observe ibits (VUMeter.micLevel i) s)
     else VUMeter.observe ibits (VUMeter.micLevel i) s).
Proof.
  intros E. unfold VUMeter.step, VUMeter.loop. rewrite E. simpl.
  destruct (VUMeter.fade_elapsed _ _); reflexivity.
Qed.

(** What a pass does to the fader does not depend on the value of the
    fade timer. *)
Lemma fader_ignores_fade_timer
  (ibits t : Z) (i : VUMeter.Inputs) (s : VUMeter.State) :
  VUMeter._peakToPeakFader
    (VUMeter.step ibits i (VUMeter.with_fade_timer t s))
  = VUMeter._peakToPeakFader (VUMeter.step ibits i s).
Proof.
  destruct s as [ts mx mn fd tf].
  unfold VUMeter.step, VUMeter.loop, VUMeter.with_fade_timer, VUMeter.observe,
    VUMeter.window_elapsed, VUMeter.closeWindow, VUMeter.fade_elapsed,
    VUMeter.fadeStep, VUMeter.peakToPeak.
  cbn [VUMeter._startSampleTimeMs VUMeter._signalMax VUMeter._signalMin
       VUMeter._peakToPeakFader VUMeter._startFadeTimeMs].
  destruct (CInt.uwrap ibits (VUMeter.micLevel i) >? mx);
    [| destruct (CInt.uwrap ibits (VUMeter.micLevel i) <? mn)];
    cbn [VUMeter._startSampleTimeMs VUMeter._signalMax VUMeter._signalMin
         VUMeter._peakToPeakFader VUMeter._startFadeTimeMs];
    destruct (CInt.uwrap CInt.ULONG_BITS (VUMeter.millis_window i - ts)
              >? VUMeter.MIC_SAMPLE_WINDOW_MS);
    cbn [fst VUMeter._startSampleTimeMs VUMeter._signalMax VUMeter._signalMin
         VUMeter._peakToPeakFader VUMeter._startFadeTimeMs];
    match goal with
    | |- context [if ?c then _ else _] => destruct c
    end; reflexivity.
Qed.

(** A sample above the running maximum is not considered for the running
    minimum. *)
Lemma observe_new_max_keeps_min (ibits mic : Z) (s : VUMeter.State) :
  CInt.uwrap ibits mic > VUMeter._signalMax s ->
  VUMeter._signalMin (VUMeter.observe ibits mic s) = VUMeter._signalMin s
  /\ VUMeter._signalMax (VUMeter.observe ibits mic s) = CInt.uwrap ibits mic.
Proof.
  intros Hgt. unfold VUMeter.observe.
  destruct (CInt.uwrap ibits mic >? VUMeter._signalMax s) eqn:E.
  - split; reflexivity.
  - rewrite Z.gtb_ltb in E. apply Z.ltb_ge in E. lia.
Qed.

Lemma observe_extremes_inv (ibits mic : Z) (s : VUMeter.State) :
  VUMeter.extremes_inv s -> VUMeter.extremes_inv (VUMeter.observe ibits mic s).
Proof.
  unfold VUMeter.extremes_inv, VUMeter.observe. intros H.
  destruct (CInt.uwrap ibits mic >? VUMeter._signalMax s) eqn:E1; simpl.
  - apply Z.gtb_lt in E1. lia.
  - destruct (CInt.uwrap ibits mic <? VUMeter._signalMin s) eqn:E2; simpl.
    + right. rewrite Z.gtb_ltb in E1. apply Z.ltb_ge in E1. exact E1.
    + exact H.
Qed.

Lemma step_extremes_inv (ibits : Z) (i : VUMeter.Inputs) (s : VUMeter.State) :
  VUMeter.extremes_inv s -> VUMeter.extremes_inv (VUMeter.step ibits i s).
Proof.
  intros H. apply (observe_extremes_inv ibits (VUMeter.micLevel i)) in H.
  unfold VUMeter.step, VUMeter.loop.
  destruct (VUMeter.window_elapsed _ _); simpl.
  - destruct (VUMeter.fade_elapsed _ _); left; reflexivity.
  - destruct (VUMeter.fade_elapsed _ _); exact H.
Qed.

Lemma run_step (ibits : Z) (i : VUMeter.Inputs) (rest : list VUMeter.Inputs)
  (s : VUMeter.State) :
  fst (VUMeter.run ibits (i :: rest) s)
  = fst (VUMeter.run ibits rest (VUMeter.step ibits i s)).
Proof.
  unfold VUMeter.step. simpl.
  destruct (VUMeter.loop ibits i s) as [s' line]. simpl.
  destruct (VUMeter.run ibits rest s') as [s'' lines]. reflexivity.
Qed.

Lemma run_extremes_inv (ibits : Z) (ins : list VUMeter.Inputs) (s : VUMeter.State) :
  VUMeter.extremes_inv s -> VUMeter.extremes_inv (fst (VUMeter.run ibits ins s)).
Proof.
  revert s. induction ins as [|i rest IH]; intros s H.
  - exact H.
  - rewrite run_step. apply IH. apply step_extremes_inv. exact H.
Qed.

(** C4: the first sample of a window already puts the running minimum
    above the running maximum.  After [setup()] at 0 ms the sample 2,
    taken into the extremes, raises the maximum to 2 and, by the [else],
    leaves the minimum at its sentinel 929; the pass at 10 ms that reads
    it finds the window open and ends in that state.  Both widths of
    [int] agree. *)
Theorem running_min_above_max_after_first_sample :
  (VUMeter._signalMax (VUMeter.observe 16 2 (VUMeter.setup 0 0)) = 2
   /\ VUMeter._signalMin (VUMeter.observe 16 2 (VUMeter.setup 0 0)) = 929
   /\ VUMeter._signalMax
        (VUMeter.step 16 (VUMeter.at_ms 10 2) (VUMeter.setup 0 0)) = 2
   /\ VUMeter._signalMin
        (VUMeter.step 16 (VUMeter.at_ms 10 2) (VUMeter.setup 0 0)) = 929)
  /\ (VUMeter._signalMax (VUMeter.observe 32 2 (VUMeter.setup 0 0)) = 2
      /\ VUMeter._signalMin (VUMeter.observe 32 2 (VUMeter.setup 0 0)) = 929
      /\ VUMeter._signalMax
           (VUMeter.step 32 (VUMeter.at_ms 10 2) (VUMeter.setup 0 0)) = 2
      /\ VUMeter._signalMin
           (VUMeter.step 32 (VUMeter.at_ms 10 2) (VUMeter.setup 0 0)) = 929).
Proof.
  vm_compute. repeat split.
Qed.

(** What the running extremes keep in every run, the first samples of a
    window included: the minimum is still the sentinel
    [MAX_ANALOG_INPUT] or it is at most the maximum. *)
Lemma running_min_sentinel_or_le_max
  (ibits : Z) (ins : list VUMeter.Inputs) (t_sample t_fade mic : Z) :
  VUMeter.extremes_inv
    (fst (VUMeter.run ibits ins (VUMeter.setup t_sample t_fade)))
  /\ VUMeter.extremes_inv
       (VUMeter.observe ibits mic
          (fst (VUMeter.run ibits ins (VUMeter.setup t_sample t_fade)))).
Proof.
  assert (H : VUMeter.extremes_inv
                (fst (VUMeter.run ibits ins (VUMeter.setup t_sample t_fade)))).
  { apply run_extremes_inv. left. reflexivity. }
  split; [exact H | apply observe_extremes_inv; exact H].
Qed.

(** Before the first sample of a window the sentinels stand as they were
    set, by [setup()] or by the close of the previous window: 929 for the
    minimum, 0 for the maximum. *)
Lemma sentinels_at_window_start :
  ~ (VUMeter._signalMin (VUMeter.setup 0 0)
     <= VUMeter._signalMax (VUMeter.setup 0 0))
  /\ ~ (VUMeter._signalMin
          (fst (VUMeter.run 32 VUMeter.first_window (VUMeter.setup 0 0)))
        <= VUMeter._signalMax
             (fst (VUMeter.run 32 VUMeter.first_window (VUMeter.setup 0 0)))).
Proof.
  split; vm_compute; intros H; apply H; reflexivity.
Qed.

(** C5: one pass at 41 ms after [setup()] at 0 ms, reading 500 from the
    microphone, closes the first window with the maximum at 500 and the
    minimum still at its sentinel 929; the unsigned difference wraps, the
    unsigned comparison lets it through and the fader becomes -429. *)
Theorem fader_negative_after_single_sample_window :
  VUMeter._peakToPeakFader (VUMeter.step 16 (VUMeter.at_ms 41 500) (VUMeter.setup 0 0))
  = -429
  /\ VUMeter._peakToPeakFader (VUMeter.step 32 (VUMeter.at_ms 41 500) (VUMeter.setup 0 0))
     = -429.
Proof.
  split; vm_compute; reflexivity.
Qed.

(** The part of C5 that holds: a pass that does not close the window
    never raises the fader, and lowers a positive fader by at most the
    fade step. *)
Lemma fader_not_raised_without_close
  (ibits : Z) (i : VUMeter.Inputs) (s : VUMeter.State) :
  1 <= ibits ->
  CInt.in_int ibits (VUMeter._peakToPeakFader s) ->
  VUMeter.window_elapsed (VUMeter.millis_window i)
    (VUMeter.observe ibits (VUMeter.micLevel i) s) = false ->
  VUMeter._peakToPeakFader (VUMeter.step ibits i s) <= VUMeter._peakToPeakFader s
  /\ (0 <= VUMeter._peakToPeakFader s ->
      0 <= VUMeter._peakToPeakFader (VUMeter.step ibits i s)).
Proof.
  intros Hb Hr E. rewrite fade_follows_window_timer by exact E.
  assert (Ho : VUMeter._peakToPeakFader
                 (VUMeter.observe ibits (VUMeter.micLevel i) s)
               = VUMeter._peakToPeakFader s).
  { unfold VUMeter.observe.
    destruct (_ >? _); [reflexivity|]. destruct (_ <? _); reflexivity. }
  destruct (VUMeter.fade_elapsed _ _).
  - unfold VUMeter.fadeStep; simpl. rewrite Ho.
    destruct (VUMeter._peakToPeakFader s >? 0) eqn:E0.
    + apply Z.gtb_lt in E0. unfold VUMeter._peakToPeakFadeStep.
      unfold CInt.in_int in Hr.
      rewrite swrap_id; [lia | lia | unfold CInt.in_int; lia].
    + lia.
  - rewrite Ho. lia.
Qed.

(** ** Paint sketch *)

Lemma indexOf_from_absent (ch : ascii) (s : string) (i : Z) :
  ~ In ch (list_ascii_of_string s) -> WString.indexOf_from ch s i = -1.
Proof.
  revert i. induction s as [|c rest IH]; intros i Hno; simpl.
  - reflexivity.
  - destruct (Ascii.eqb_spec c ch) as [-> | Hne].
    + exfalso. apply Hno. left. reflexivity.
    + apply IH. intros Hin. apply Hno. right. exact Hin.
Qed.

Lemma indexOf_from_present (ch : ascii) (s : string) (i : Z) :
  In ch (list_ascii_of_string s) ->
  i <= WString.indexOf_from ch s i < i + WString.length s.
Proof.
  unfold WString.length.
  revert i. induction s as [|c rest IH]; intros i Hin; simpl in Hin.
  - contradiction.
  - cbn [WString.indexOf_from String.length].
    destruct (Ascii.eqb_spec c ch) as [-> | Hne].
    + lia.
    + destruct Hin as [Heq | Hin]; [congruence|].
      specialize (IH (i + 1) Hin). lia.
Qed.

(** A line with its first comma at [k]: the text before it gives the brush
    type and the text after it the fill mode, each through [toInt] and the
    conversion to [int]. *)
Lemma parse_record (ibits : Z) (line : string) (k : Z) (s : PaintIO.State) :
  16 <= ibits ->
  WString.indexOf ","%char line = k -> 0 <= k ->
  WString.length line < 32768 ->
  fst (PaintIO.checkAndParseSerial ibits (Some line) s)
  = {| PaintIO._curBrushType :=
         CInt.swrap ibits (WString.toInt (WString.substring 0 k line));
       PaintIO._curBrushFillMode :=
         CInt.swrap ibits
           (WString.toInt
              (WString.substring (k + 1) (WString.length line) line));
       PaintIO._lastShapeSelectionButtonVal :=
         PaintIO._lastShapeSelectionButtonVal s;
       PaintIO._lastDrawModeButtonVal := PaintIO._lastDrawModeButtonVal s;
       PaintIO._lastClearDrawingButtonVal :=
         PaintIO._lastClearDrawingButtonVal s |}.
Proof.
  intros Hb Hk Hk0 Hlen.
  assert (Hin : In ","%char (list_ascii_of_string line)).
  { destruct (in_dec ascii_dec ","%char (list_ascii_of_string line)) as [H | H];
      [exact H|].
    apply (indexOf_from_absent _ _ 0) in H. unfold WString.indexOf in Hk. lia. }
  pose proof (indexOf_from_present _ _ 0 Hin) as Hrange.
  unfold WString.indexOf in Hk. rewrite Hk in Hrange.
  assert (Hl0 : 0 <= WString.length line) by (unfold WString.length; lia).
  unfold PaintIO.checkAndParseSerial, WString.indexOf. rewrite Hk.
  destruct (Z.eqb_spec k (-1)) as [E | _]; [lia|]. simpl negb. cbv iota.
  rewrite (swrap_small ibits (k + 1)) by lia.
  rewrite (swrap_small ibits (WString.length line)) by lia.
  rewrite !uwrap_small by lia.
  reflexivity.
Qed.

(** C7: the record ["1,0"] sets the brush type to SQUARE (1) and the fill
    mode to FILL (0), whatever they were. *)
Theorem parse_1_0 (ibits : Z) (s : PaintIO.State) :
  16 <= ibits ->
  PaintIO._curBrushType
    (fst (PaintIO.checkAndParseSerial ibits (Some "1,0"%string) s))
  = PaintIO.SQUARE
  /\ PaintIO._curBrushFillMode
       (fst (PaintIO.checkAndParseSerial ibits (Some "1,0"%string) s))
     = PaintIO.FILL.
Proof.
  intros Hb.
  rewrite (parse_record ibits "1,0"%string 1 s Hb);
    [ | reflexivity | lia | vm_compute; reflexivity ].
  cbn [PaintIO._curBrushType PaintIO._curBrushFillMode].
  change (WString.toInt (WString.substring 0 1 "1,0")) with 1.
  change (WString.toInt
            (WString.substring (1 + 1) (WString.length "1,0") "1,0")) with 0.
  rewrite !swrap_small by lia. split; reflexivity.
Qed.

Lemma parse_1_0_witness :
  PaintIO._curBrushType
    (fst (PaintIO.checkAndParseSerial 16 (Some "1,0"%string)
            (PaintIO.mkState 2 1 1 1 1)))
  = 1
  /\ PaintIO._curBrushFillMode
       (fst (PaintIO.checkAndParseSerial 16 (Some "1,0"%string)
               (PaintIO.mkState 2 1 1 1 1)))
     = 0.
Proof.
  apply (parse_1_0 16 (PaintIO.mkState 2 1 1 1 1)). lia.
Defined.

(** C8: a received line without a comma leaves the whole state, and so
    the brush type and the fill mode, as they were; only the echo is
    sent. *)
Theorem no_comma_keeps_state (ibits : Z) (line : string) (s : PaintIO.State) :
  ~ PaintIO.has_comma line ->
  fst (PaintIO.checkAndParseSerial ibits (Some line) s) = s
  /\ PaintIO._curBrushType
       (fst (PaintIO.checkAndParseSerial ibits (Some line) s))
     = PaintIO._curBrushType s
  /\ PaintIO._curBrushFillMode
       (fst (PaintIO.checkAndParseSerial ibits (Some line) s))
     = PaintIO._curBrushFillMode s.
Proof.
  intros Hno.
  assert (E : fst (PaintIO.checkAndParseSerial ibits (Some line) s) = s).
  { unfold PaintIO.checkAndParseSerial, WString.indexOf.
    rewrite indexOf_from_absent by exact Hno. reflexivity. }
  rewrite E. repeat split.
Qed.

Lemma no_comma_keeps_state_witness :
  fst (PaintIO.checkAndParseSerial 16 (Some "abc"%string)
         (PaintIO.mkState 2 1 1 1 1))
  = PaintIO.mkState 2 1 1 1 1.
Proof.
  apply (no_comma_keeps_state 16 "abc"%string (PaintIO.mkState 2 1 1 1 1)).
  unfold PaintIO.has_comma. simpl.
  intros [H | [H | [H | H]]]; try discriminate H. exact H.
Defined.

(** C10: from named values the button handler gives named values: a
    press (LOW after something else) moves to the next enumerator and
    from the last one back to CIRCLE, resp. FILL, and no press keeps the
    value.  The serial parser stores what [toInt] read: ["5,0"] makes the
    brush type 5, which is none of the named shapes. *)
Theorem buttons_keep_named_parser_does_not
  (ibits sel mode : Z) (s : PaintIO.State) :
  16 <= ibits -> PaintIO.brush_named s -> PaintIO.fill_named s ->
  PaintIO.brush_named (PaintIO.readBrushButtons ibits sel mode s)
  /\ PaintIO.fill_named (PaintIO.readBrushButtons ibits sel mode s)
  /\ PaintIO._curBrushType (PaintIO.readBrushButtons ibits sel mode s)
     = (if (sel =? PaintIO.LOW)
           && negb (sel =? PaintIO._lastShapeSelectionButtonVal s)
        then (PaintIO._curBrushType s + 1) mod PaintIO.NUM_BRUSH_TYPES
        else PaintIO._curBrushType s)
  /\ PaintIO._curBrushFillMode (PaintIO.readBrushButtons ibits sel mode s)
     = (if (mode =? PaintIO.LOW)
           && negb (mode =? PaintIO._lastDrawModeButtonVal s)
        then (PaintIO._curBrushFillMode s + 1) mod PaintIO.NUM_FILL_MODES
        else PaintIO._curBrushFillMode s)
  /\ PaintIO._curBrushType
       (fst (PaintIO.checkAndParseSerial ibits (Some "5,0"%string) s)) = 5
  /\ ~ PaintIO.brush_named
         (fst (PaintIO.checkAndParseSerial ibits (Some "5,0"%string) s)).
Proof.
  intros Hb Hbrush Hfill.
  assert (Hparse : PaintIO._curBrushType
            (fst (PaintIO.checkAndParseSerial ibits (Some "5,0"%string) s)) = 5).
  { rewrite (parse_record ibits "5,0"%string 1 s Hb);
      [ | reflexivity | lia | vm_compute; reflexivity ].
    cbn [PaintIO._curBrushType].
    change (WString.toInt (WString.substring 0 1 "5,0")) with 5.
    apply swrap_small; lia. }
  assert (Hb' : PaintIO._curBrushType (PaintIO.readBrushButtons ibits sel mode s)
     = (if (sel =? PaintIO.LOW)
           && negb (sel =? PaintIO._lastShapeSelectionButtonVal s)
        then (PaintIO._curBrushType s + 1) mod PaintIO.NUM_BRUSH_TYPES
        else PaintIO._curBrushType s)).
  { unfold PaintIO.readBrushButtons. cbn [PaintIO._curBrushType].
    destruct ((sel =? PaintIO.LOW) && _); [|reflexivity].
    unfold PaintIO.brush_named, PaintIO.CIRCLE, PaintIO.SQUARE,
      PaintIO.TRIANGLE, PaintIO.NUM_BRUSH_TYPES in *.
    destruct Hbrush as [-> | [-> | ->]];
      rewrite swrap_small by lia; reflexivity. }
  assert (Hf' : PaintIO._curBrushFillMode (PaintIO.readBrushButtons ibits sel mode s)
     = (if (mode =? PaintIO.LOW)
           && negb (mode =? PaintIO._lastDrawModeButtonVal s)
        then (PaintIO._curBrushFillMode s + 1) mod PaintIO.NUM_FILL_MODES
        else PaintIO._curBrushFillMode s)).
  { unfold PaintIO.readBrushButtons. cbn [PaintIO._curBrushFillMode].
    destruct ((mode =? PaintIO.LOW) && _); [|reflexivity].
    unfold PaintIO.fill_named, PaintIO.FILL, PaintIO.OUTLINE,
      PaintIO.NUM_FILL_MODES in *.
    destruct Hfill as [-> | ->];
      rewrite swrap_small by lia; reflexivity. }
  repeat split; try assumption.
  - unfold PaintIO.brush_named. rewrite Hb'.
    destruct ((sel =? PaintIO.LOW) && _); [|exact Hbrush].
    unfold PaintIO.brush_named, PaintIO.CIRCLE, PaintIO.SQUARE,
      PaintIO.TRIANGLE, PaintIO.NUM_BRUSH_TYPES in *.
    destruct Hbrush as [-> | [-> | ->]]; vm_compute; tauto.
  - unfold PaintIO.fill_named. rewrite Hf'.
    destruct ((mode =? PaintIO.LOW) && _); [|exact Hfill].
    unfold PaintIO.fill_named, PaintIO.FILL, PaintIO.OUTLINE,
      PaintIO.NUM_FILL_MODES in *.
    destruct Hfill as [-> | ->]; vm_compute; tauto.
  - unfold PaintIO.brush_named. rewrite Hparse.
    unfold PaintIO.CIRCLE, PaintIO.SQUARE, PaintIO.TRIANGLE. lia.
Qed.

(** A press of both buttons at TRIANGLE / OUTLINE wraps to CIRCLE / FILL. *)
Lemma buttons_keep_named_parser_does_not_witness :
  PaintIO._curBrushType
    (PaintIO.readBrushButtons 16 0 0 (PaintIO.mkState 2 1 1 1 1)) = 0
  /\ PaintIO._curBrushFillMode
       (PaintIO.readBrushButtons 16 0 0 (PaintIO.mkState 2 1 1 1 1)) = 0
  /\ PaintIO._curBrushType
       (fst (PaintIO.checkAndParseSerial 16 (Some "5,0"%string)
               (PaintIO.mkState 2 1 1 1 1))) = 5.
Proof.
  pose proof (buttons_keep_named_parser_does_not 16 0 0
                (PaintIO.mkState 2 1 1 1 1)) as H.
  destruct H as (_ & _ & Hb & Hf & Hp & _).
  - lia.
  - right. right. reflexivity.
  - right. reflexivity.
  - split; [exact Hb | split; [exact Hf | exact Hp]].
Defined.

(** ** LED-value sketch *)

Lemma digits_of_uint_acc (d : Decimal.uint) (acc : positive) :
  WString.digits (Z.pos acc) (NilEmpty.string_of_uint d)
  = Z.pos (Pos.of_uint_acc d acc).
Proof.
  revert acc.
  induction d as [|d IH|d IH|d IH|d IH|d IH|d IH|d IH|d IH|d IH|d IH];
    intros acc; cbn [NilEmpty.string_of_uint WString.digits Pos.of_uint_acc];
    try reflexivity;
    match goal with
    | |- context [WString.isdigit ?c] =>
        change (WString.isdigit c) with true;
        cbv iota; rewrite <- IH; f_equal;
        unfold WString.digit_value; cbn [N_of_ascii N_of_digits Z.of_N]; lia
    end.
Qed.

(** The digits of a decimal numeral are read back as its value. *)
Lemma digits_of_uint (d : Decimal.uint) :
  WString.digits 0 (NilEmpty.string_of_uint d) = Z.of_uint d.
Proof.
  unfold Z.of_uint.
  induction d as [|d IH|d IH|d IH|d IH|d IH|d IH|d IH|d IH|d IH|d IH];
    cbn [NilEmpty.string_of_uint WString.digits Pos.of_uint];
    try reflexivity;
    match goal with
    | |- context [WString.isdigit ?c] =>
        change (WString.isdigit c) with true; cbv iota
    end;
    [ exact IH | .. ];
    match goal with
    | |- WString.digits ?a _ = _ =>
        let v := eval vm_compute in a in change a with v
    end;
    rewrite digits_of_uint_acc; reflexivity.
Qed.

Lemma skip_spaces_uint (d : Decimal.uint) :
  WString.skip_spaces (NilEmpty.string_of_uint d) = NilEmpty.string_of_uint d.
Proof. destruct d; reflexivity. Qed.

(** [toInt] on the text of a decimal numeral, with or without a minus
    sign, is the value of the numeral as a [long]. *)
Lemma toInt_decimal (d : Decimal.int) :
  WString.toInt (NilEmpty.string_of_int d)
  = CInt.swrap WString.LONG_BITS (Z.of_int d).
Proof.
  unfold WString.toInt.
  destruct d as [d | d]; unfold WString.atol, Z.of_int.
  - cbn [NilEmpty.string_of_int]. rewrite skip_spaces_uint.
    rewrite <- digits_of_uint. destruct d; reflexivity.
  - cbn [NilEmpty.string_of_int].
    change (WString.skip_spaces (String "-" (NilEmpty.string_of_uint d)))
      with (String "-" (NilEmpty.string_of_uint d)).
    cbv iota beta. rewrite digits_of_uint. reflexivity.
Qed.

(** C9, with the condition the narrowing to [int] asks for: every
    received line gives an [analogWrite] level, which is the [int] read by
    [toInt] clamped to [0, 255], so within [0, 255]; for the text of a
    decimal numeral whose value fits an [int] (and a [long]) the level is
    that value clamped to [0, 255]; the line ["300"] gives 255. *)
Theorem led_level_clamped (ibits : Z) (line : string) (d : Decimal.int) :
  16 <= ibits ->
  CInt.in_int ibits (Z.of_int d) ->
  CInt.in_int WString.LONG_BITS (Z.of_int d) ->
  (exists v,
      LedValue.analog_level (LedValue.loop ibits (Some line)) = Some v
      /\ v = Z.max 0 (Z.min 255 (CInt.swrap ibits (WString.toInt line)))
      /\ 0 <= v <= 255)
  /\ LedValue.analog_level
       (LedValue.loop ibits (Some (NilEmpty.string_of_int d)))
     = Some (Z.max 0 (Z.min 255 (Z.of_int d)))
  /\ LedValue.analog_level (LedValue.loop ibits (Some "300"%string))
     = Some 255.
Proof.
  intros Hb Hint Hlong. split; [|split].
  - exists (CInt.constrain (CInt.swrap ibits (WString.toInt line)) 0 255).
    split; [reflexivity|]. apply constrain_spec. lia.
  - unfold LedValue.loop. cbn [LedValue.analog_level].
    rewrite toInt_decimal.
    rewrite (swrap_id WString.LONG_BITS) by (unfold WString.LONG_BITS; lia || exact Hlong).
    rewrite swrap_id by (lia || exact Hint).
    f_equal. apply constrain_spec. lia.
  - unfold LedValue.loop. cbn [LedValue.analog_level].
    change (WString.toInt "300") with 300.
    rewrite swrap_small by lia. reflexivity.
Qed.

(** The numeral 300 on a board with 16-bit [int]. *)
Lemma led_level_clamped_witness :
  LedValue.analog_level
    (LedValue.loop 16
       (Some (NilEmpty.string_of_int
                (Decimal.Pos (Decimal.D3 (Decimal.D0 (Decimal.D0 Decimal.Nil)))))))
  = Some 255.
Proof.
  apply (led_level_clamped 16 "300"%string
           (Decimal.Pos (Decimal.D3 (Decimal.D0 (Decimal.D0 Decimal.Nil))))).
  - lia.
  - unfold CInt.in_int. vm_compute.
    split; [intros H; discriminate H | reflexivity].
  - unfold CInt.in_int. vm_compute.
    split; [intros H; discriminate H | reflexivity].
Defined.

(** C9 as stated fails on a board with a 16-bit [int]: the line ["40000"],
    the decimal text of 40000, is read as the [long] 40000, narrowed to
    the [int] -25536 and then constrained, so that 0 is written and not
    the 255 that 40000 clamps to. *)
Lemma led_level_40000_on_16_bit_int :
  NilEmpty.string_of_int (Z.to_int 40000) = "40000"%string
  /\ LedValue.analog_level (LedValue.loop 16 (Some "40000"%string)) = Some 0
  /\ CInt.swrap 16 (WString.toInt "40000") = -25536
  /\ Z.max 0 (Z.min 255 40000) = 255.
Proof.
  repeat split; vm_compute; reflexivity.
Qed.

(** * Further properties of the sketches *)

(** ** Bouncing ball *)

Lemma frames_speed_abs (ibits : Z) (n : nat) (b : BallBounce.Ball) :
  1 <= ibits ->
  CInt.in_int ibits (BallBounce._xSpeed b) ->
  CInt.in_int ibits (BallBounce._ySpeed b) ->
  Z.abs (BallBounce._xSpeed (BallBounce.frames ibits n b))
  = Z.abs (BallBounce._xSpeed b)
  /\ Z.abs (BallBounce._ySpeed (BallBounce.frames ibits n b))
     = Z.abs (BallBounce._ySpeed b).
Proof.
  intros Hbits. revert b. induction n as [|k IH]; intros b Hx Hy; simpl.
  - split; reflexivity.
  - destruct (step_speed_in_int ibits b Hbits Hx Hy) as [Hx' Hy'].
    destruct (step_speed_abs ibits b Hbits Hx Hy) as [Ex Ey].
    destruct (IH (BallBounce.step ibits b) Hx' Hy') as [Ix Iy].
    split; congruence.
Qed.

Lemma small_in_int (ibits z : Z) :
  16 <= ibits -> -32768 <= z < 32768 -> CInt.in_int ibits z.
Proof.
  intros Hb Hz. unfold CInt.in_int.
  destruct (pow2_width_lower ibits Hb). lia.
Qed.

(** X1: in a run of the sketch the ball keeps the speeds drawn in
    [setup()] up to sign, and its circle passes an edge of the display by
    less than one frame's move: on each axis the near side of the circle
    is less than |speed| beyond the edge.  With speeds below 4 the centre
    stays within [3, 125] x [3, 61]. *)
Theorem ball_overshoot_below_speed (ibits : Z) (n : nat) (rx ry : Z) :
  16 <= ibits -> 1 <= rx < 4 -> 1 <= ry < 4 ->
  let b := BallBounce.frames ibits n (BallBounce.setup rx ry) in
  Z.abs (BallBounce._xSpeed b) = rx
  /\ Z.abs (BallBounce._ySpeed b) = ry
  /\ - rx < BallBounce._xBall b - BallBounce._ballRadius
  /\ BallBounce._xBall b + BallBounce._ballRadius
     < BallBounce.display_width + rx
  /\ - ry < BallBounce._yBall b - BallBounce._ballRadius
  /\ BallBounce._yBall b + BallBounce._ballRadius
     < BallBounce.display_height + ry
  /\ 3 <= BallBounce._xBall b <= 125
  /\ 3 <= BallBounce._yBall b <= 61.
Proof.
  intros Hbits Hrx Hry b.
  assert (Hreach : BallBounce.reachable ibits b).
  { apply reachable_frames. constructor; assumption. }
  pose proof (reachable_ball_inv ibits Hbits b Hreach) as Hinv.
  pose proof (ball_inv_bounds b Hinv) as [Hbx Hby].
  destruct (frames_speed_abs ibits n (BallBounce.setup rx ry)) as [Ax Ay];
    [lia | apply small_in_int; simpl; lia | apply small_in_int; simpl; lia |].
  fold b in Ax, Ay. simpl in Ax, Ay.
  unfold BallBounce.ball_inv, BallBounce.insideX, BallBounce.insideY,
    BallBounce._ballRadius, BallBounce.display_width,
    BallBounce.display_height, BallBounce.SCREEN_WIDTH,
    BallBounce.SCREEN_HEIGHT in *.
  lia.
Qed.

Lemma ball_overshoot_below_speed_witness :
  3 <= BallBounce._xBall (BallBounce.frames 16 20 (BallBounce.setup 3 1))
    <= 125.
Proof.
  apply (ball_overshoot_below_speed 16 20 3 1); lia.
Defined.

(** X2: the vertical counterpart of the horizontal bounce: in a run a
    frame changes the Y speed only when the moved ball meets the test
    [y - r <= 0 || y + r >= height]; such a frame starts strictly inside,
    negates the non-zero Y speed once and plays the Y tone, and the next
    frame is strictly inside again and leaves the Y speed alone. *)
Theorem bounce_y_flips_once_per_crossing
  (ibits : Z) (n : nat) (rx ry : Z) :
  16 <= ibits -> 1 <= rx < 4 -> 1 <= ry < 4 ->
  let b := BallBounce.frames ibits n (BallBounce.setup rx ry) in
  let b1 := BallBounce.step ibits b in
  let b2 := BallBounce.step ibits b1 in
  (BallBounce.hitY ibits (BallBounce._yBall b1) = false ->
     BallBounce._ySpeed b1 = BallBounce._ySpeed b)
  /\ (BallBounce.hitY ibits (BallBounce._yBall b1) = true ->
        BallBounce.insideY (BallBounce._yBall b)
        /\ ~ BallBounce.insideY (BallBounce._yBall b1)
        /\ BallBounce._ySpeed b <> 0
        /\ BallBounce._ySpeed b1 = - BallBounce._ySpeed b
        /\ In BallBounce.ToneY (snd (BallBounce.loop ibits b))
        /\ BallBounce.insideY (BallBounce._yBall b2)
        /\ BallBounce.hitY ibits (BallBounce._yBall b2) = false
        /\ BallBounce._ySpeed b2 = BallBounce._ySpeed b1).
Proof.
  intros Hbits Hrx Hry b b1 b2.
  assert (Hreach : BallBounce.reachable ibits b).
  { apply reachable_frames. constructor; assumption. }
  pose proof (reachable_ball_inv ibits Hbits b Hreach) as Hinv.
  pose proof (ball_inv_step ibits Hbits b Hinv) as Hinv1.
  pose proof (ball_inv_bounds b Hinv) as [_ Hby].
  pose proof (ball_inv_bounds b1 Hinv1) as [_ Hby1].
  subst b2 b1. remember b as b0 eqn:Eb. clear Eb b Hreach.
  destruct b0 as [x y vx vy].
  unfold BallBounce.ball_inv in Hinv, Hinv1. simpl in *.
  rewrite !(swrap_small ibits (y + vy)) in * by lia.
  destruct Hinv as (Hvx & Hvy & Hx & Hy).
  split.
  - intros E. rewrite E. reflexivity.
  - intros E. rewrite E in *. simpl.
    rewrite (swrap_small ibits (vy * -1)) in * by lia.
    assert (Hout : ~ BallBounce.insideY (y + vy)).
    { intros Hin.
      assert (Hr : -30000 <= y + vy <= 30000) by lia.
      apply (proj2 (hitY_false_inside ibits Hbits (y + vy) Hr)) in Hin.
      congruence. }
    assert (Hin : BallBounce.insideY y) by tauto.
    replace (y + vy + vy * -1) with y in * by lia.
    assert (Hno : BallBounce.hitY ibits y = false).
    { apply (hitY_false_inside ibits Hbits y); [lia | exact Hin]. }
    rewrite (swrap_small ibits y) by lia.
    rewrite Hno.
    repeat split; try (exact Hout || apply Hin || lia).
    apply in_or_app. right. left. reflexivity.
Qed.

(** Frame 9 of the run with speeds 1 and 3 crosses the bottom edge. *)
Lemma bounce_y_flips_once_per_crossing_witness :
  BallBounce.hitY 16
    (BallBounce._yBall
       (BallBounce.step 16 (BallBounce.frames 16 8 (BallBounce.setup 1 3))))
  = true
  /\ BallBounce._ySpeed
       (BallBounce.step 16 (BallBounce.frames 16 8 (BallBounce.setup 1 3)))
     = - BallBounce._ySpeed (BallBounce.frames 16 8 (BallBounce.setup 1 3)).
Proof.
  split; [vm_compute; reflexivity|].
  apply (bounce_y_flips_once_per_crossing 16 8 1 3); [lia | lia | lia |].
  vm_compute; reflexivity.
Defined.

(** ** VU meter: timers *)

Lemma ulong_elapsed (start d : Z) :
  0 <= d < 4294967296 ->
  CInt.uwrap CInt.ULONG_BITS
    (CInt.uwrap CInt.ULONG_BITS (start + d) - start) = d.
Proof.
  intros Hd. unfold CInt.uwrap, CInt.ULONG_BITS.
  rewrite Zminus_mod_idemp_l.
  replace (start + d - start) with d by lia.
  apply Z.mod_small. exact Hd.
Qed.

(** X3: the two timer tests survive the roll-over of [millis()]: when
    [d] ms (less than 2^32) have gone by since the window timer was
    started, so that [millis()] reads [start + d] modulo 2^32, the window
    test holds exactly when [d > 40] and the fade test exactly when
    [d > 10]. *)
Theorem timer_tests_survive_rollover (d : Z) (s : VUMeter.State) :
  0 <= d < 4294967296 ->
  VUMeter.window_elapsed
    (CInt.uwrap CInt.ULONG_BITS (VUMeter._startSampleTimeMs s + d)) s
  = (d >? VUMeter.MIC_SAMPLE_WINDOW_MS)
  /\ VUMeter.fade_elapsed
       (CInt.uwrap CInt.ULONG_BITS (VUMeter._startSampleTimeMs s + d)) s
     = (d >? VUMeter.FADE_TIME_THRESHOLD_MS).
Proof.
  intros Hd. unfold VUMeter.window_elapsed, VUMeter.fade_elapsed.
  rewrite ulong_elapsed by exact Hd. split; reflexivity.
Qed.

(** A window started 30 ms before the counter wraps, read 45 ms later. *)
Lemma timer_tests_survive_rollover_witness :
  VUMeter.window_elapsed 14 (VUMeter.setup 4294967265 4294967265) = true.
Proof.
  apply (timer_tests_survive_rollover 45 (VUMeter.setup 4294967265 4294967265)).
  lia.
Defined.

(** ** VU meter: the extremes of a window *)

Lemma observe_keeps_rest (ibits mic : Z) (s : VUMeter.State) :
  VUMeter._startSampleTimeMs (VUMeter.observe ibits mic s)
  = VUMeter._startSampleTimeMs s
  /\ VUMeter._peakToPeakFader (VUMeter.observe ibits mic s)
     = VUMeter._peakToPeakFader s
  /\ VUMeter._startFadeTimeMs (VUMeter.observe ibits mic s)
     = VUMeter._startFadeTimeMs s.
Proof.
  unfold VUMeter.observe.
  destruct (_ >? _); [repeat split|].
  destruct (_ <? _); repeat split.
Qed.

(** The extremes after a sample depend on the extremes before it only. *)
Lemma observe_extremes_congr (ibits mic : Z) (s s' : VUMeter.State) :
  VUMeter._signalMax s = VUMeter._signalMax s' ->
  VUMeter._signalMin s = VUMeter._signalMin s' ->
  VUMeter._signalMax (VUMeter.observe ibits mic s)
  = VUMeter._signalMax (VUMeter.observe ibits mic s')
  /\ VUMeter._signalMin (VUMeter.observe ibits mic s)
     = VUMeter._signalMin (VUMeter.observe ibits mic s').
Proof.
  intros Emax Emin. unfold VUMeter.observe. rewrite Emax, Emin.
  destruct (_ >? _); [split; simpl; congruence|].
  destruct (_ <? _); split; simpl; congruence.
Qed.

Lemma observe_all_extremes_congr
  (ibits : Z) (mics : list Z) (s s' : VUMeter.State) :
  VUMeter._signalMax s = VUMeter._signalMax s' ->
  VUMeter._signalMin s = VUMeter._signalMin s' ->
  VUMeter._signalMax (VUDisplay.observe_all ibits mics s)
  = VUMeter._signalMax (VUDisplay.observe_all ibits mics s')
  /\ VUMeter._signalMin (VUDisplay.observe_all ibits mics s)
     = VUMeter._signalMin (VUDisplay.observe_all ibits mics s').
Proof.
  revert s s'. induction mics as [|m rest IH]; intros s s' Emax Emin.
  - split; assumption.
  - unfold VUDisplay.observe_all in *. simpl.
    destruct (observe_extremes_congr ibits m s s' Emax Emin) as [E1 E2].
    apply IH; assumption.
Qed.

Lemma window_open_iff (t0 : Z) (i : VUMeter.Inputs) (s : VUMeter.State) :
  VUMeter._startSampleTimeMs s = t0 ->
  (VUDisplay.window_open t0 i
   <-> VUMeter.window_elapsed (VUMeter.millis_window i) s = false).
Proof.
  intros <-. unfold VUDisplay.window_open, VUMeter.window_elapsed.
  rewrite Z.gtb_ltb, Z.ltb_ge. tauto.
Qed.

(** A pass that finds the window open takes the sample into the extremes
    and leaves the window timer alone; it prints nothing. *)
Lemma loop_open (ibits : Z) (i : VUMeter.Inputs) (s : VUMeter.State) :
  VUDisplay.window_open (VUMeter._startSampleTimeMs s) i ->
  snd (VUMeter.loop ibits i s) = None
  /\ VUMeter._startSampleTimeMs (VUMeter.step ibits i s)
     = VUMeter._startSampleTimeMs s
  /\ VUMeter._signalMax (VUMeter.step ibits i s)
     = VUMeter._signalMax (VUMeter.observe ibits (VUMeter.micLevel i) s)
  /\ VUMeter._signalMin (VUMeter.step ibits i s)
     = VUMeter._signalMin (VUMeter.observe ibits (VUMeter.micLevel i) s).
Proof.
  intros Hopen.
  destruct (observe_keeps_rest ibits (VUMeter.micLevel i) s) as (Es & _ & _).
  apply (window_open_iff _ i (VUMeter.observe ibits (VUMeter.micLevel i) s))
    in Hopen; [|exact Es].
  unfold VUMeter.step, VUMeter.loop. rewrite Hopen. simpl.
  destruct (VUMeter.fade_elapsed _ _); simpl; rewrite ?Es; repeat split.
Qed.

Lemma run_cons (ibits : Z) (i : VUMeter.Inputs) (rest : list VUMeter.Inputs)
  (s : VUMeter.State) :
  VUMeter.run ibits (i :: rest) s
  = (fst (VUMeter.run ibits rest (VUMeter.step ibits i s)),
     match snd (VUMeter.loop ibits i s) with
     | Some r => r :: snd (VUMeter.run ibits rest (VUMeter.step ibits i s))
     | None => snd (VUMeter.run ibits rest (VUMeter.step ibits i s))
     end).
Proof.
  unfold VUMeter.step. simpl.
  destruct (VUMeter.loop ibits i s) as [s' line]. simpl.
  destruct (VUMeter.run ibits rest s') as [s'' lines]. reflexivity.
Qed.


(** A run of passes that all find the window open: nothing is printed,
    the window timer stands, and the extremes are those of the samples
    taken in one after the other. *)
Lemma run_open (ibits : Z) (ins : list VUMeter.Inputs) (s : VUMeter.State) :
  Forall (VUDisplay.window_open (VUMeter._startSampleTimeMs s)) ins ->
  snd (VUMeter.run ibits ins s) = []
  /\ VUMeter._startSampleTimeMs (fst (VUMeter.run ibits ins s))
     = VUMeter._startSampleTimeMs s
  /\ VUMeter._signalMax (fst (VUMeter.run ibits ins s))
     = VUMeter._signalMax
         (VUDisplay.observe_all ibits (List.map VUMeter.micLevel ins) s)
  /\ VUMeter._signalMin (fst (VUMeter.run ibits ins s))
     = VUMeter._signalMin
         (VUDisplay.observe_all ibits (List.map VUMeter.micLevel ins) s).
Proof.
  revert s. induction ins as [|i rest IH]; intros s Hall.
  - simpl. repeat split.
  - inversion Hall as [|? ? Hi Hrest]; subst.
    destruct (loop_open ibits i s Hi) as (Eline & Estart & Emax & Emin).
    rewrite run_cons, Eline. simpl fst. simpl snd.
    rewrite <- Estart in Hrest.
    destruct (IH (VUMeter.step ibits i s) Hrest) as (I1 & I2 & I3 & I4).
    destruct (observe_all_extremes_congr ibits (List.map VUMeter.micLevel rest)
                (VUMeter.step ibits i s)
                (VUMeter.observe ibits (VUMeter.micLevel i) s) Emax Emin)
      as [C1 C2].
    repeat split.
    + exact I1.
    + congruence.
    + rewrite I3. exact C1.
    + rewrite I4. exact C2.
Qed.

Lemma observe_all_max (ibits : Z) (mics : list Z) (s : VUMeter.State) :
  VUMeter._signalMax (VUDisplay.observe_all ibits mics s)
  = fold_left Z.max (List.map (CInt.uwrap ibits) mics) (VUMeter._signalMax s).
Proof.
  revert s. induction mics as [|m rest IH]; intros s.
  - reflexivity.
  - unfold VUDisplay.observe_all in *. simpl. rewrite IH. f_equal.
    unfold VUMeter.observe.
    destruct (CInt.uwrap ibits m >? VUMeter._signalMax s) eqn:E1.
    + apply Z.gtb_lt in E1. simpl. lia.
    + rewrite Z.gtb_ltb in E1. apply Z.ltb_ge in E1.
      destruct (_ <? _); simpl; lia.
Qed.

(** X4: while the window stays open the running maximum is exact: after
    any passes that find the window open, [_signalMax] is the largest of
    its earlier value and the samples read (as [unsigned int]). *)
Theorem running_max_is_largest_sample
  (ibits : Z) (ins : list VUMeter.Inputs) (s : VUMeter.State) :
  Forall (VUDisplay.window_open (VUMeter._startSampleTimeMs s)) ins ->
  VUMeter._signalMax (fst (VUMeter.run ibits ins s))
  = fold_left Z.max
      (List.map (fun i => CInt.uwrap ibits (VUMeter.micLevel i)) ins)
      (VUMeter._signalMax s).
Proof.
  intros Hall. destruct (run_open ibits ins s Hall) as (_ & _ & Emax & _).
  rewrite Emax, observe_all_max, List.map_map. reflexivity.
Qed.

Lemma running_max_is_largest_sample_witness :
  VUMeter._signalMax
    (fst (VUMeter.run 16
            [VUMeter.at_ms 10 2; VUMeter.at_ms 20 9; VUMeter.at_ms 30 4]
            (VUMeter.setup 0 0)))
  = 9.
Proof.
  apply (running_max_is_largest_sample 16
           [VUMeter.at_ms 10 2; VUMeter.at_ms 20 9; VUMeter.at_ms 30 4]
           (VUMeter.setup 0 0)).
  repeat constructor; vm_compute; intros H; discriminate H.
Defined.

Lemma observe_small (ibits x : Z) (s : VUMeter.State) :
  16 <= ibits -> 0 <= x < 65536 ->
  VUMeter._signalMax (VUMeter.observe ibits x s)
  = Z.max x (VUMeter._signalMax s)
  /\ VUMeter._signalMin (VUMeter.observe ibits x s)
     = (if x >? VUMeter._signalMax s then VUMeter._signalMin s
        else Z.min x (VUMeter._signalMin s)).
Proof.
  intros Hb Hx. unfold VUMeter.observe. rewrite uwrap_small by assumption.
  destruct (x >? VUMeter._signalMax s) eqn:E1.
  - apply Z.gtb_lt in E1. simpl. lia.
  - rewrite Z.gtb_ltb in E1. apply Z.ltb_ge in E1.
    destruct (x <? VUMeter._signalMin s) eqn:E2; simpl.
    + apply Z.ltb_lt in E2. lia.
    + apply Z.ltb_ge in E2. lia.
Qed.





Lemma closeWindow_sane (ibits t : Z) (s : VUMeter.State) :
  16 <= ibits ->
  0 <= VUMeter._signalMin s <= VUMeter._signalMax s ->
  VUMeter._signalMax s < 32768 ->
  0 <= VUMeter._peakToPeakFader s < 32768 ->
  VUMeter.closeWindow ibits t s
  = ({| VUMeter._startSampleTimeMs := t;
        VUMeter._signalMax := 0;
        VUMeter._signalMin := VUMeter.MAX_ANALOG_INPUT;
        VUMeter._peakToPeakFader :=
          Z.max (VUMeter._peakToPeakFader s)
                (VUMeter._signalMax s - VUMeter._signalMin s);
        VUMeter._startFadeTimeMs := VUMeter._startFadeTimeMs s |},
     {| VUMeter.rep_min := VUMeter._signalMin s;
        VUMeter.rep_max := VUMeter._signalMax s;
        VUMeter.rep_peakToPeak := VUMeter._signalMax s - VUMeter._signalMin s;
        VUMeter.rep_fader :=
          Z.max (VUMeter._peakToPeakFader s)
                (VUMeter._signalMax s - VUMeter._signalMin s) |}).
Proof.
  intros Hb Hmm Hmax Hf. unfold VUMeter.closeWindow, VUMeter.peakToPeak.
  rewrite !uwrap_small by lia.
  destruct (VUMeter._peakToPeakFader s
            <? VUMeter._signalMax s - VUMeter._signalMin s) eqn:E.
  - apply Z.ltb_lt in E. rewrite swrap_small by lia.
    replace (Z.max _ _) with (VUMeter._signalMax s - VUMeter._signalMin s)
      by lia.
    reflexivity.
  - apply Z.ltb_ge in E.
    replace (Z.max _ _) with (VUMeter._peakToPeakFader s) by lia.
    reflexivity.
Qed.






(** ** VU meter: the fader *)

(** What a run keeps when every close is sane: extremes and fader within
    [0, 32767]. *)
Lemma step_keeps_ranges (ibits : Z) (i : VUMeter.Inputs) (s : VUMeter.State) :
  16 <= ibits ->
  0 <= VUMeter.micLevel i < 32768 ->
  (VUMeter.window_elapsed (VUMeter.millis_window i)
     (VUMeter.observe ibits (VUMeter.micLevel i) s) = true ->
   VUMeter._signalMin (VUMeter.observe ibits (VUMeter.micLevel i) s)
   <= VUMeter._signalMax (VUMeter.observe ibits (VUMeter.micLevel i) s)) ->
  0 <= VUMeter._signalMax s < 32768 ->
  0 <= VUMeter._signalMin s ->
  0 <= VUMeter._peakToPeakFader s < 32768 ->
  0 <= VUMeter._signalMax (VUMeter.step ibits i s) < 32768
  /\ 0 <= VUMeter._signalMin (VUMeter.step ibits i s)
  /\ 0 <= VUMeter._peakToPeakFader (VUMeter.step ibits i s) < 32768.
Proof.
  intros Hb Hmic Hsane Hmax Hmin Hf.
  destruct (observe_small ibits (VUMeter.micLevel i) s Hb ltac:(lia))
    as [Emax Emin].
  destruct (observe_keeps_rest ibits (VUMeter.micLevel i) s) as (_ & Ef & _).
  set (s1 := VUMeter.observe ibits (VUMeter.micLevel i) s) in *.
  assert (H1 : 0 <= VUMeter._signalMax s1 < 32768) by (rewrite Emax; lia).
  assert (H2 : 0 <= VUMeter._signalMin s1).
  { rewrite Emin. destruct (_ >? _); lia. }
  assert (Hfade : forall t s', 0 <= VUMeter._peakToPeakFader s' < 32768 ->
            0 <= VUMeter._peakToPeakFader (VUMeter.fadeStep ibits t s') < 32768).
  { intros t s' Hs'. unfold VUMeter.fadeStep, VUMeter._peakToPeakFadeStep.
    simpl. destruct (VUMeter._peakToPeakFader s' >? 0) eqn:E.
    - apply Z.gtb_lt in E. rewrite swrap_small by lia. lia.
    - exact Hs'. }
  unfold VUMeter.step, VUMeter.loop. fold s1.
  destruct (VUMeter.window_elapsed (VUMeter.millis_window i) s1) eqn:Eel.
  - specialize (Hsane eq_refl).
    rewrite closeWindow_sane by (rewrite ?Ef; lia).
    cbn [fst snd].
    match goal with
    | |- context [VUMeter.fade_elapsed ?t ?st] =>
        set (s3 := st); destruct (VUMeter.fade_elapsed t s3)
    end; cbn [fst].
    + specialize (Hfade (VUMeter.millis_faded i) s3).
      unfold VUMeter.fadeStep in *. unfold s3 in *. simpl in *.
      unfold VUMeter.MAX_ANALOG_INPUT. rewrite Ef in *.
      split; [lia|]. split; [lia|]. apply Hfade. lia.
    + unfold s3. simpl. unfold VUMeter.MAX_ANALOG_INPUT. rewrite Ef. lia.
  - cbn [fst snd].
    destruct (VUMeter.fade_elapsed (VUMeter.millis_fade i) s1); cbn [fst].
    + specialize (Hfade (VUMeter.millis_faded i) s1).
      split; [exact H1|]. split; [exact H2|]. apply Hfade. rewrite Ef. exact Hf.
    + rewrite Ef. auto.
Qed.

(** X6: the fader never goes below zero, nor past what an [int] of 16
    bits holds, in a run from [setup()] whose samples are within
    [0, 32767] and in which every close of a window finds the running
    minimum at or below the running maximum. *)
Theorem fader_nonnegative_in_sane_runs
  (ibits t_sample t_fade : Z) (ins : list VUMeter.Inputs) :
  16 <= ibits ->
  Forall (fun i => 0 <= VUMeter.micLevel i < 32768) ins ->
  VUDisplay.sane_run ibits ins (VUMeter.setup t_sample t_fade) ->
  0 <= VUMeter._peakToPeakFader
         (fst (VUMeter.run ibits ins (VUMeter.setup t_sample t_fade)))
    < 32768.
Proof.
  intros Hb Hmic Hsane.
  assert (Hgen : forall s,
    Forall (fun i => 0 <= VUMeter.micLevel i < 32768) ins ->
    VUDisplay.sane_run ibits ins s ->
    0 <= VUMeter._signalMax s < 32768 ->
    0 <= VUMeter._signalMin s ->
    0 <= VUMeter._peakToPeakFader s < 32768 ->
    0 <= VUMeter._peakToPeakFader (fst (VUMeter.run ibits ins s)) < 32768).
  { clear Hmic Hsane. induction ins as [|i rest IH]; intros s Hmic Hsane H1 H2 H3.
    - exact H3.
    - inversion Hmic as [|? ? Hi Hrest]; subst.
      destruct Hsane as [Hclose Hsane].
      destruct (step_keeps_ranges ibits i s Hb Hi Hclose H1 H2 H3)
        as (K1 & K2 & K3).
      rewrite run_step. apply IH; assumption. }
  apply Hgen; try assumption; simpl; unfold VUMeter.MAX_ANALOG_INPUT; lia.
Qed.

Lemma fader_nonnegative_in_sane_runs_witness :
  0 <= VUMeter._peakToPeakFader
         (fst (VUMeter.run 16 VUMeter.first_window (VUMeter.setup 0 0)))
    < 32768.
Proof.
  apply (fader_nonnegative_in_sane_runs 16 0 0 VUMeter.first_window).
  - lia.
  - repeat constructor; vm_compute; discriminate.
  - simpl. repeat split.
    + vm_compute. intros H. discriminate H.
    + vm_compute. intros _ H. discriminate H.
Defined.

(** X7: with no window closing, the fader runs down by one per pass and
    stops at zero: after [n] passes that find the window open and the
    fade test true (the window timer between 10 and 40 ms), a fader [f]
    within [0, 32767] is [max 0 (f - n)]. *)
Theorem fader_runs_down_to_zero
  (ibits : Z) (ins : list VUMeter.Inputs) (s : VUMeter.State) :
  16 <= ibits ->
  0 <= VUMeter._peakToPeakFader s < 32768 ->
  Forall (fun i => VUDisplay.window_open (VUMeter._startSampleTimeMs s) i
                   /\ VUDisplay.fade_due (VUMeter._startSampleTimeMs s) i)
         ins ->
  VUMeter._peakToPeakFader (fst (VUMeter.run ibits ins s))
  = Z.max 0 (VUMeter._peakToPeakFader s - Z.of_nat (List.length ins)).
Proof.
  intros Hb. revert s. induction ins as [|i rest IH]; intros s Hf Hall.
  - simpl. lia.
  - inversion Hall as [|? ? [Hopen Hdue] Hrest]; subst.
    destruct (loop_open ibits i s Hopen) as (_ & Estart & _ & _).
    destruct (observe_keeps_rest ibits (VUMeter.micLevel i) s) as (Es & Ef & _).
    assert (Hcl : VUMeter.window_elapsed (VUMeter.millis_window i)
                    (VUMeter.observe ibits (VUMeter.micLevel i) s) = false).
    { apply (window_open_iff (VUMeter._startSampleTimeMs s)); assumption. }
    assert (Hstep : VUMeter._peakToPeakFader (VUMeter.step ibits i s)
                    = Z.max 0 (VUMeter._peakToPeakFader s - 1)).
    { rewrite fade_follows_window_timer by exact Hcl.
      unfold VUMeter.fade_elapsed. rewrite Es.
      unfold VUDisplay.fade_due in Hdue.
      destruct (_ >? VUMeter.FADE_TIME_THRESHOLD_MS) eqn:E.
      - unfold VUMeter.fadeStep, VUMeter._peakToPeakFadeStep. simpl.
        rewrite Ef.
        destruct (VUMeter._peakToPeakFader s >? 0) eqn:E0.
        + apply Z.gtb_lt in E0. rewrite swrap_small by lia. lia.
        + rewrite Z.gtb_ltb in E0. apply Z.ltb_ge in E0. lia.
      - rewrite Z.gtb_ltb in E. apply Z.ltb_ge in E. lia. }
    rewrite run_step. rewrite <- Estart in Hrest.
    rewrite IH; [| rewrite Hstep; lia | exact Hrest].
    rewrite Hstep. simpl List.length. lia.
Qed.

(** A fader of 2 run down over three passes at 11, 12 and 13 ms. *)
Lemma fader_runs_down_to_zero_witness :
  VUMeter._peakToPeakFader
    (fst (VUMeter.run 16
            [VUMeter.at_ms 11 300; VUMeter.at_ms 12 300; VUMeter.at_ms 13 300]
            (VUMeter.mkState 0 0 VUMeter.MAX_ANALOG_INPUT 2 0)))
  = 0.
Proof.
  apply (fader_runs_down_to_zero 16
           [VUMeter.at_ms 11 300; VUMeter.at_ms 12 300; VUMeter.at_ms 13 300]
           (VUMeter.mkState 0 0 VUMeter.MAX_ANALOG_INPUT 2 0)).
  - lia.
  - simpl. lia.
  - repeat constructor; vm_compute; try reflexivity; intros H; discriminate H.
Defined.

(** ** VU meter: the strand *)

Lemma swrap_long_small (z : Z) :
  -2147483648 <= z < 2147483648 -> CInt.swrap WString.LONG_BITS z = z.
Proof.
  intros Hz. apply swrap_id; [unfold WString.LONG_BITS; lia|].
  unfold CInt.in_int, WString.LONG_BITS.
  change (2 ^ (32 - 1)) with 2147483648. exact Hz.
Qed.

(** [map] from [0, in_max] to [0, out_max] on values whose product with
    [out_max] fits a [long]. *)
Lemma map_from_zero (x in_max out_max : Z) :
  0 < in_max < 32768 -> 0 <= out_max < 65536 -> -32768 <= x < 32768 ->
  Wiring.map x 0 in_max 0 out_max = Z.quot (x * out_max) in_max.
Proof.
  intros Hin Hout Hx. unfold Wiring.map.
  rewrite !Z.sub_0_r, Z.add_0_r.
  rewrite (swrap_long_small x), (swrap_long_small out_max),
    (swrap_long_small in_max) by lia.
  rewrite (swrap_long_small (x * out_max)) by nia.
  apply swrap_long_small.
  assert (Habs : Z.abs (Z.quot (x * out_max) in_max) <= Z.abs (x * out_max)).
  { rewrite <- Z.quot_abs by lia.
    rewrite Z.quot_div_nonneg by lia.
    apply Z.div_le_upper_bound; [lia|].
    pose proof (Z.abs_nonneg (x * out_max)). nia. }
  assert (Z.abs (x * out_max) < 2147483648) by nia.
  lia.
Qed.

(** X8: the number of pixels lit is always within [0, 30]; for a fader
    within [0, 32767] it is [fader * 30 / 1023] capped at 30, so it grows
    with the fader, is 0 below 35 and reaches the whole strand from 1023
    on. *)
Theorem lit_pixels_follow_fader (ibits fader : Z) :
  16 <= ibits -> 0 <= fader < 32768 ->
  VUDisplay.numNeoPixelsToIlluminate ibits fader
  = Z.min VUDisplay.NUM_NEOPIXELS
          (fader * VUDisplay.NUM_NEOPIXELS / VUDisplay.MAX_MIC_LEVEL)
  /\ 0 <= VUDisplay.numNeoPixelsToIlluminate ibits fader
       <= VUDisplay.NUM_NEOPIXELS
  /\ (VUDisplay.numNeoPixelsToIlluminate ibits fader = 0 <-> fader < 35)
  /\ (VUDisplay.numNeoPixelsToIlluminate ibits fader
      = VUDisplay.NUM_NEOPIXELS <-> 1023 <= fader)
  /\ (forall fader', fader <= fader' < 32768 ->
      VUDisplay.numNeoPixelsToIlluminate ibits fader
      <= VUDisplay.numNeoPixelsToIlluminate ibits fader').
Proof.
  intros Hb Hf.
  assert (Hform : forall f, 0 <= f < 32768 ->
            VUDisplay.numNeoPixelsToIlluminate ibits f
            = Z.min 30 (f * 30 / 1023)).
  { intros f Hf'. unfold VUDisplay.numNeoPixelsToIlluminate,
      VUDisplay.NUM_NEOPIXELS, VUDisplay.MAX_MIC_LEVEL.
    rewrite map_from_zero by lia.
    rewrite Z.quot_div_nonneg by lia.
    assert (Hq : 0 <= f * 30 / 1023 < 65536).
    { split; [apply Z.div_pos; lia|].
      apply Z.div_lt_upper_bound; lia. }
    rewrite (uwrap_small ibits (f * 30 / 1023)) by lia.
    destruct (constrain_spec (f * 30 / 1023) 0 30 ltac:(lia)) as [Ec Hc].
    rewrite uwrap_small by lia. rewrite Ec. lia. }
  unfold VUDisplay.NUM_NEOPIXELS, VUDisplay.MAX_MIC_LEVEL.
  rewrite (Hform fader Hf).
  assert (Hdiv : forall f, 0 <= f ->
            1023 * (f * 30 / 1023) <= f * 30 < 1023 * (f * 30 / 1023) + 1023).
  { intros f Hf'. pose proof (Z.div_mod (f * 30) 1023 ltac:(lia)).
    pose proof (Z.mod_pos_bound (f * 30) 1023 ltac:(lia)). lia. }
  pose proof (Hdiv fader ltac:(lia)) as Hd.
  repeat split; try lia.
  intros f' Hf'. rewrite (Hform f' ltac:(lia)).
  pose proof (Hdiv f' ltac:(lia)) as Hd'.
  assert (fader * 30 / 1023 <= f' * 30 / 1023)
    by (apply Z.div_le_mono; lia).
  lia.
Qed.

Lemma lit_pixels_follow_fader_witness :
  VUDisplay.numNeoPixelsToIlluminate 16 500 = 14.
Proof.
  apply (lit_pixels_follow_fader 16 500); lia.
Defined.

(** X9: a negative fader lights the whole strand: from -35 down (and
    within a 16-bit [int]) the scaled value is negative, wraps in the
    [unsigned int] and is cut to 30; from -34 to -1 no pixel is lit. *)
Theorem negative_fader_lights_all (ibits fader : Z) :
  16 <= ibits -> -32768 <= fader < 0 ->
  VUDisplay.numNeoPixelsToIlluminate ibits fader
  = (if fader <=? -35 then VUDisplay.NUM_NEOPIXELS else 0).
Proof.
  intros Hb Hf. unfold VUDisplay.numNeoPixelsToIlluminate,
    VUDisplay.NUM_NEOPIXELS, VUDisplay.MAX_MIC_LEVEL.
  rewrite map_from_zero by lia.
  replace (fader * 30) with (- (- fader * 30)) by lia.
  rewrite Z.quot_opp_l by lia. rewrite Z.quot_div_nonneg by lia.
  set (q := - fader * 30 / 1023).
  assert (Hq : 1023 * q <= - fader * 30 < 1023 * q + 1023).
  { unfold q. pose proof (Z.div_mod (- fader * 30) 1023 ltac:(lia)).
    pose proof (Z.mod_pos_bound (- fader * 30) 1023 ltac:(lia)). lia. }
  destruct (pow2_width_lower ibits Hb) as [Hp _].
  destruct (Z.leb_spec fader (-35)) as [Hle | Hgt].
  - assert (Hq1 : 1 <= q <= 961) by lia.
    assert (Eu : CInt.uwrap ibits (- q) = 2 ^ ibits - q).
    { unfold CInt.uwrap.
      replace (- q) with (2 ^ ibits - q + (-1) * 2 ^ ibits) by lia.
      rewrite Z.mod_add by lia. apply Z.mod_small. lia. }
    rewrite Eu. unfold CInt.constrain.
    destruct (Z.ltb_spec (2 ^ ibits - q) 0); [lia|].
    destruct (2 ^ ibits - q >? 30) eqn:E.
    + apply uwrap_small; lia.
    + rewrite Z.gtb_ltb in E. apply Z.ltb_ge in E. lia.
  - assert (Hq0 : q = 0) by lia. rewrite Hq0. reflexivity.
Qed.

(** The fader of -429 that a one-sample window leaves. *)
Lemma negative_fader_lights_all_witness :
  VUDisplay.numNeoPixelsToIlluminate 16 (-429) = 30.
Proof.
  apply (negative_fader_lights_all 16 (-429)); lia.
Defined.

Lemma update_length (n : nat) (c : Z) (strip : Wiring.Strip) :
  List.length (Wiring.update n c strip) = List.length strip.
Proof.
  revert n. induction strip as [|p rest IH]; intros n.
  - destruct n; reflexivity.
  - destruct n as [|k]; simpl; [reflexivity | rewrite IH; reflexivity].
Qed.

Lemma update_nth (n k : nat) (c d : Z) (strip : Wiring.Strip) :
  (n < List.length strip)%nat ->
  nth k (Wiring.update n c strip) d = if Nat.eqb k n then c else nth k strip d.
Proof.
  revert n k. induction strip as [|p rest IH]; intros n k Hn.
  - simpl in Hn. lia.
  - destruct n as [|n']; destruct k as [|k']; simpl; try reflexivity.
    apply IH. simpl in Hn. lia.
Qed.

Lemma setPixelColor_length (n c : Z) (strip : Wiring.Strip) :
  List.length (Wiring.setPixelColor n c strip) = List.length strip.
Proof.
  unfold Wiring.setPixelColor.
  destruct (_ && _); [apply update_length | reflexivity].
Qed.

Lemma setPixelColor_nth (n c d : Z) (k : nat) (strip : Wiring.Strip) :
  0 <= n < Z.of_nat (List.length strip) ->
  nth k (Wiring.setPixelColor n c strip) d
  = if Z.of_nat k =? n then c else nth k strip d.
Proof.
  intros Hn. unfold Wiring.setPixelColor.
  destruct (Z.leb_spec 0 n); [|lia].
  destruct (Z.ltb_spec n (Z.of_nat (List.length strip))); [|lia].
  simpl. rewrite update_nth by lia.
  destruct (Nat.eqb_spec k (Z.to_nat n)); destruct (Z.eqb_spec (Z.of_nat k) n);
    try reflexivity; lia.
Qed.

Section StrandFacts.
Variable ibits : Z.
Variable hue_span : Z.
Variable ColorHSV : Z -> Z -> Z -> Z.
Hypothesis ibits_ge : 16 <= ibits.

(** The turns of the pixel loop from [pxl] on rewrite the pixels from
    [pxl] to the end and leave the earlier ones. *)
Lemma pixel_loop_spec (fuel : nat) (pxl lit : Z) (strip : Wiring.Strip) :
  0 <= pxl ->
  pxl + Z.of_nat fuel = VUDisplay.NUM_NEOPIXELS ->
  Z.of_nat (List.length strip) = VUDisplay.NUM_NEOPIXELS ->
  List.length (VUDisplay.pixel_loop ibits hue_span ColorHSV fuel pxl lit strip)
  = List.length strip
  /\ forall k : nat,
      nth k (VUDisplay.pixel_loop ibits hue_span ColorHSV fuel pxl lit strip) 0
      = if Z.of_nat k <? pxl then nth k strip 0
        else if Z.of_nat k <? VUDisplay.NUM_NEOPIXELS then
               if Z.of_nat k <? lit
               then VUDisplay.pixelColor ibits hue_span ColorHSV (Z.of_nat k)
               else 0
             else nth k strip 0.
Proof.
  unfold VUDisplay.NUM_NEOPIXELS.
  revert pxl strip. induction fuel as [|fuel IH]; intros pxl strip Hp Hsum Hlen.
  - cbn [VUDisplay.pixel_loop]. unfold VUDisplay.NUM_NEOPIXELS.
    destruct (Z.ltb_spec pxl 30); [lia|].
    split; [reflexivity|]. intros k.
    destruct (Z.ltb_spec (Z.of_nat k) pxl); [reflexivity|].
    destruct (Z.ltb_spec (Z.of_nat k) 30); [lia | reflexivity].
  - cbn [VUDisplay.pixel_loop]. unfold VUDisplay.NUM_NEOPIXELS.
    destruct (Z.ltb_spec pxl 30); [|lia].
    rewrite (uwrap_small ibits pxl) by lia.
    rewrite (swrap_small ibits (pxl + 1)) by lia.
    set (strip' := if pxl <? lit
                   then Wiring.setPixelColor pxl
                          (VUDisplay.pixelColor ibits hue_span ColorHSV pxl) strip
                   else Wiring.setPixelColor pxl 0 strip).
    assert (Hlen' : List.length strip' = List.length strip).
    { unfold strip'. destruct (pxl <? lit); apply setPixelColor_length. }
    destruct (IH (pxl + 1) strip') as [Il In']; [lia | lia | lia |].
    split; [congruence|].
    intros k. rewrite In'.
    destruct (Z.ltb_spec (Z.of_nat k) (pxl + 1)) as [Hk | Hk].
    + unfold strip'.
      destruct (Z.ltb_spec (Z.of_nat k) pxl) as [Hk' | Hk'].
      * destruct (pxl <? lit); rewrite setPixelColor_nth by lia;
          destruct (Z.eqb_spec (Z.of_nat k) pxl); try lia; reflexivity.
      * assert (Ek : Z.of_nat k = pxl) by lia.
        destruct (Z.ltb_spec (Z.of_nat k) 30); [|lia].
        destruct (Z.ltb_spec (Z.of_nat k) lit);
          destruct (Z.ltb_spec pxl lit); try lia;
          rewrite setPixelColor_nth by lia;
          destruct (Z.eqb_spec (Z.of_nat k) pxl); try lia;
          rewrite ?Ek; reflexivity.
    + destruct (Z.ltb_spec (Z.of_nat k) pxl); [lia|].
      destruct (Z.ltb_spec (Z.of_nat k) 30); [reflexivity|].
      unfold strip'.
      destruct (pxl <? lit); rewrite setPixelColor_nth by lia;
        destruct (Z.eqb_spec (Z.of_nat k) pxl); try lia; reflexivity.
Qed.

End StrandFacts.

(** X10: a pass rewrites the whole strand as a bar: on a strand of 30
    pixels, whatever it showed before, pixel [k] gets its own colour when
    [k] is below the number of pixels to light and is switched off
    otherwise; the strand keeps its length. *)
Theorem strand_shows_bar
  (ibits hue_span : Z) (ColorHSV : Z -> Z -> Z -> Z)
  (fader : Z) (strip : Wiring.Strip) (k : nat) :
  16 <= ibits ->
  Z.of_nat (List.length strip) = VUDisplay.NUM_NEOPIXELS ->
  (k < 30)%nat ->
  List.length (VUDisplay.show_level ibits hue_span ColorHSV fader strip)
  = List.length strip
  /\ nth k (VUDisplay.show_level ibits hue_span ColorHSV fader strip) 0
     = if Z.of_nat k <? VUDisplay.numNeoPixelsToIlluminate ibits fader
       then VUDisplay.pixelColor ibits hue_span ColorHSV (Z.of_nat k)
       else 0.
Proof.
  intros Hb Hlen Hk. unfold VUDisplay.show_level.
  destruct (pixel_loop_spec ibits hue_span ColorHSV Hb
              (Z.to_nat VUDisplay.NUM_NEOPIXELS) 0
              (VUDisplay.numNeoPixelsToIlluminate ibits fader) strip)
    as [El En]; [lia | reflexivity | exact Hlen |].
  split; [exact El|].
  rewrite En.
  destruct (Z.ltb_spec (Z.of_nat k) 0); [lia|].
  unfold VUDisplay.NUM_NEOPIXELS.
  destruct (Z.ltb_spec (Z.of_nat k) 30); [reflexivity | lia].
Qed.

(** Pixel 20 of a strand that was all white, at fader 500 (14 lit). *)
Lemma strand_shows_bar_witness :
  nth 20 (VUDisplay.show_level 16 52428 (fun h _ _ => h) 500
            (List.repeat 16777215 30)) 0
  = 0.
Proof.
  apply (strand_shows_bar 16 52428 (fun h _ _ => h) 500
           (List.repeat 16777215 30) 20).
  - lia.
  - reflexivity.
  - lia.
Defined.

(** ** Numbers in received text *)

Lemma digits_stop (s rest : string) (acc : Z) :
  Wiring.stops_number rest ->
  WString.digits acc (s ++ rest) = WString.digits acc s.
Proof.
  intros Hrest. revert acc. induction s as [|c r IH]; intros acc.
  - simpl. destruct rest as [|c r]; [reflexivity|].
    simpl in *. rewrite Hrest. reflexivity.
  - simpl. destruct (WString.isdigit c); [apply IH | reflexivity].
Qed.

(** Text after a number does not change what [toInt] reads, when the
    number's text starts with something else than a blank. *)
Lemma toInt_stop (c : ascii) (r rest : string) :
  WString.isspace c = false ->
  Wiring.stops_number rest ->
  WString.toInt (String c r ++ rest) = WString.toInt (String c r).
Proof.
  intros Hc Hrest. unfold WString.toInt, WString.atol.
  cbn [append WString.skip_spaces]. rewrite Hc.
  destruct (Ascii.eqb_spec c "-"%char) as [-> | Hm].
  - rewrite digits_stop by exact Hrest. reflexivity.
  - destruct (Ascii.eqb_spec c "+"%char) as [-> | Hp].
    + rewrite digits_stop by exact Hrest. reflexivity.
    + change (String c (r ++ rest)) with (String c r ++ rest)%string.
      transitivity (CInt.swrap WString.LONG_BITS
                      (WString.digits 0 (String c r ++ rest))).
      * destruct c as [[|] [|] [|] [|] [|] [|] [|] [|]];
          try reflexivity; congruence.
      * rewrite digits_stop by exact Hrest.
        destruct c as [[|] [|] [|] [|] [|] [|] [|] [|]];
          try reflexivity; congruence.
Qed.

Lemma skip_spaces_blanks (ws s : string) :
  Wiring.blanks ws ->
  WString.skip_spaces (ws ++ s) = WString.skip_spaces s.
Proof.
  unfold Wiring.blanks. induction ws as [|c r IH]; intros Hws.
  - reflexivity.
  - simpl in Hws. inversion Hws as [|? ? Hc Hr]; subst.
    cbn [append WString.skip_spaces]. rewrite Hc. apply IH. exact Hr.
Qed.

Lemma toInt_blanks (ws s : string) :
  Wiring.blanks ws -> WString.toInt (ws ++ s) = WString.toInt s.
Proof.
  intros Hws. unfold WString.toInt, WString.atol.
  rewrite skip_spaces_blanks by exact Hws. reflexivity.
Qed.

Lemma string_of_uint_head (d : Decimal.uint) :
  d <> Decimal.Nil ->
  exists c r, NilEmpty.string_of_uint d = String c r
              /\ WString.isspace c = false /\ c <> ","%char.
Proof.
  intros Hd. destruct d; try congruence;
    eexists; eexists; (split; [reflexivity|]); split;
    try reflexivity; discriminate.
Qed.

Lemma decimal_head (n : Z) :
  exists c r, Wiring.decimal n = String c r /\ WString.isspace c = false.
Proof.
  unfold Wiring.decimal. destruct n as [|p|p]; simpl.
  - eexists; eexists; split; reflexivity.
  - destruct (string_of_uint_head (Pos.to_uint p)
                (DecimalPos.Unsigned.to_uint_nonnil p)) as (c & r & E & Hc & _).
    exists c, r. split; assumption.
  - eexists; eexists; split; reflexivity.
Qed.

Lemma toInt_of_decimal (n : Z) :
  WString.toInt (Wiring.decimal n) = CInt.swrap WString.LONG_BITS n.
Proof.
  unfold Wiring.decimal. rewrite toInt_decimal, DecimalZ.of_to. reflexivity.
Qed.

(** What [toInt] reads from the decimal text of [n], blanks before it and
    other text after it. *)
Lemma toInt_decimal_in_text (n : Z) (ws rest : string) :
  Wiring.blanks ws -> Wiring.stops_number rest ->
  -32768 <= n < 32768 ->
  WString.toInt (ws ++ Wiring.decimal n ++ rest) = n.
Proof.
  intros Hws Hrest Hn. rewrite toInt_blanks by exact Hws.
  destruct (decimal_head n) as (c & r & E & Hc).
  rewrite E, toInt_stop by assumption.
  rewrite <- E, toInt_of_decimal. apply swrap_long_small. lia.
Qed.

Lemma string_of_uint_no_comma (d : Decimal.uint) :
  ~ In ","%char (list_ascii_of_string (NilEmpty.string_of_uint d)).
Proof.
  induction d; simpl; [intros [] | ..];
    intros [H | H]; try discriminate H; auto.
Qed.

Lemma decimal_no_comma (n : Z) : ~ PaintIO.has_comma (Wiring.decimal n).
Proof.
  unfold PaintIO.has_comma, Wiring.decimal.
  destruct n as [|p|p]; simpl.
  - intros [H | []]. discriminate H.
  - apply string_of_uint_no_comma.
  - intros [H | H]; [discriminate H|].
    revert H. apply string_of_uint_no_comma.
Qed.

(** ** LED-value sketch *)

(** X11: the level written for a line that holds the decimal text of [n]
    (within a 16-bit [int]), with blanks before it and anything that does
    not start with a digit after it, such as the carriage return a sender
    leaves before the newline, is [n] clamped to [0, 255]; so a negative
    number switches the LED off and a number above 255 drives it fully. *)
Theorem led_level_of_number_in_text (ibits n : Z) (ws rest : string) :
  16 <= ibits ->
  Wiring.blanks ws -> Wiring.stops_number rest ->
  -32768 <= n < 32768 ->
  LedValue.analog_level
    (LedValue.loop ibits (Some (ws ++ Wiring.decimal n ++ rest)%string))
  = Some (Z.max 0 (Z.min 255 n)).
Proof.
  intros Hb Hws Hrest Hn. unfold LedValue.loop. cbn [LedValue.analog_level].
  rewrite toInt_decimal_in_text by assumption.
  rewrite swrap_small by assumption.
  f_equal. apply constrain_spec. lia.
Qed.

(** The line [" 42"] followed by a carriage return. *)
Lemma led_level_of_number_in_text_witness :
  LedValue.analog_level
    (LedValue.loop 16
       (Some (" " ++ Wiring.decimal 42
              ++ String (ascii_of_nat 13) EmptyString)%string))
  = Some 42.
Proof.
  apply (led_level_of_number_in_text 16 42 " "%string
           (String (ascii_of_nat 13) EmptyString)).
  - lia.
  - repeat constructor.
  - reflexivity.
  - lia.
Defined.

(** X12: a line that is empty, blank, or starts after its blanks with
    something else than a digit or a sign is read as 0: the LED is
    switched off. *)
Theorem led_off_on_text (ibits : Z) (line : string) :
  1 <= ibits ->
  Wiring.not_a_number line ->
  LedValue.analog_level (LedValue.loop ibits (Some line)) = Some 0.
Proof.
  intros Hb Hline. unfold LedValue.loop. cbn [LedValue.analog_level].
  assert (E : WString.toInt line = 0).
  { unfold Wiring.not_a_number in Hline.
    unfold WString.toInt, WString.atol.
    destruct (WString.skip_spaces line) as [|c r]; [reflexivity|].
    destruct Hline as (Hd & Hm & Hp).
    destruct (Ascii.eqb_spec c "-"%char) as [-> | _]; [congruence|].
    destruct (Ascii.eqb_spec c "+"%char) as [-> | _]; [congruence|].
    transitivity (CInt.swrap WString.LONG_BITS (WString.digits 0 (String c r))).
    - destruct c as [[|] [|] [|] [|] [|] [|] [|] [|]];
        try reflexivity; congruence.
    - simpl. rewrite Hd. reflexivity. }
  rewrite E. rewrite swrap_id; [reflexivity | exact Hb |].
  unfold CInt.in_int. destruct (pow2_width_double ibits Hb). lia.
Qed.

Lemma led_off_on_text_witness :
  LedValue.analog_level (LedValue.loop 16 (Some "  on"%string)) = Some 0.
Proof.
  apply (led_off_on_text 16 "  on"%string).
  - lia.
  - unfold Wiring.not_a_number. simpl.
    split; [reflexivity|]. split; discriminate.
Defined.

(** ** Paint sketch: records and buttons *)

Lemma indexOf_from_first (ch : ascii) (s1 s2 : string) (i : Z) :
  ~ In ch (list_ascii_of_string s1) ->
  WString.indexOf_from ch (s1 ++ String ch s2) i = i + WString.length s1.
Proof.
  unfold WString.length.
  revert i. induction s1 as [|c r IH]; intros i Hno.
  - simpl. rewrite Ascii.eqb_refl. lia.
  - cbn [append WString.indexOf_from String.length].
    destruct (Ascii.eqb_spec c ch) as [-> | Hne].
    + exfalso. apply Hno. left. reflexivity.
    + rewrite IH; [lia|]. intros Hin. apply Hno. right. exact Hin.
Qed.

Lemma substring_prefix (s1 s2 : string) :
  String.substring 0 (String.length s1) (s1 ++ s2) = s1.
Proof.
  induction s1 as [|c r IH]; simpl.
  - destruct s2; reflexivity.
  - rewrite IH. reflexivity.
Qed.

Lemma substring_whole (s : string) :
  String.substring 0 (String.length s) s = s.
Proof.
  induction s as [|c r IH]; simpl; [reflexivity | rewrite IH; reflexivity].
Qed.

Lemma substring_after (c : ascii) (s1 s2 : string) :
  String.substring (S (String.length s1)) (String.length s2)
    (s1 ++ String c s2) = s2.
Proof.
  induction s1 as [|c1 r IH]; simpl.
  - apply substring_whole.
  - exact IH.
Qed.

Lemma length_append (s1 s2 : string) :
  WString.length (s1 ++ s2) = WString.length s1 + WString.length s2.
Proof.
  unfold WString.length. induction s1 as [|c r IH].
  - simpl. lia.
  - cbn [append String.length]. lia.
Qed.

(** A record [a,b] written in decimal, with or without text after [b]. *)
Lemma parse_decimal_record
  (ibits a b : Z) (rest : string) (s : PaintIO.State) :
  16 <= ibits ->
  -32768 <= a < 32768 -> -32768 <= b < 32768 ->
  Wiring.stops_number rest ->
  WString.length
    (Wiring.decimal a ++ String "," (Wiring.decimal b ++ rest)) < 32768 ->
  fst (PaintIO.checkAndParseSerial ibits
         (Some (Wiring.decimal a ++ String "," (Wiring.decimal b ++ rest))%string)
         s)
  = {| PaintIO._curBrushType := a;
       PaintIO._curBrushFillMode := b;
       PaintIO._lastShapeSelectionButtonVal :=
         PaintIO._lastShapeSelectionButtonVal s;
       PaintIO._lastDrawModeButtonVal := PaintIO._lastDrawModeButtonVal s;
       PaintIO._lastClearDrawingButtonVal :=
         PaintIO._lastClearDrawingButtonVal s |}.
Proof.
  intros Hb Ha Hbb Hrest Hlen.
  set (da := Wiring.decimal a) in *.
  set (tail := (Wiring.decimal b ++ rest)%string) in *.
  assert (Hk : WString.indexOf ","%char (da ++ String "," tail)
               = WString.length da).
  { unfold WString.indexOf. rewrite indexOf_from_first; [lia|].
    apply decimal_no_comma. }
  assert (Hda : 0 <= WString.length da) by (unfold WString.length; lia).
  assert (Htail : 0 < WString.length tail).
  { unfold tail. destruct (decimal_head b) as (c & r & E & _). rewrite E.
    unfold WString.length. simpl. lia. }
  assert (Hline : WString.length (da ++ String "," tail)
                  = WString.length da + 1 + WString.length tail).
  { rewrite length_append. unfold WString.length. simpl String.length. lia. }
  rewrite (parse_record ibits _ (WString.length da) s Hb Hk Hda Hlen).
  assert (E1 : WString.substring 0 (WString.length da) (da ++ String "," tail)
               = da).
  { unfold WString.substring.
    destruct (0 >? WString.length da) eqn:E;
      [apply Z.gtb_lt in E; lia|].
    destruct (0 >=? WString.length (da ++ String "," tail)) eqn:E';
      [rewrite Z.geb_leb in E'; apply Z.leb_le in E'; lia|].
    destruct (WString.length da >? WString.length (da ++ String "," tail))
      eqn:E''; [apply Z.gtb_lt in E''; lia|].
    rewrite Z.sub_0_r. unfold WString.length. rewrite Nat2Z.id.
    apply substring_prefix. }
  assert (E2 : WString.substring (WString.length da + 1)
                 (WString.length (da ++ String "," tail))
                 (da ++ String "," tail) = tail).
  { unfold WString.substring.
    destruct (WString.length da + 1
              >? WString.length (da ++ String "," tail)) eqn:E;
      [apply Z.gtb_lt in E; lia|].
    destruct (WString.length da + 1
              >=? WString.length (da ++ String "," tail)) eqn:E';
      [rewrite Z.geb_leb in E'; apply Z.leb_le in E'; lia|].
    destruct (WString.length (da ++ String "," tail)
              >? WString.length (da ++ String "," tail)) eqn:E'';
      [apply Z.gtb_lt in E''; lia|].
    rewrite Hline.
    replace (WString.length da + 1 + WString.length tail
             - (WString.length da + 1)) with (WString.length tail) by lia.
    unfold WString.length.
    replace (Z.to_nat (Z.of_nat (String.length da) + 1))
      with (S (String.length da)) by lia.
    rewrite Nat2Z.id. apply substring_after. }
  rewrite E1, E2.
  assert (Ta : WString.toInt da = a).
  { unfold da. rewrite toInt_of_decimal. apply swrap_long_small. lia. }
  assert (Tb : WString.toInt tail = b).
  { unfold tail.
    apply (toInt_decimal_in_text b EmptyString rest);
      [constructor | exact Hrest | exact Hbb]. }
  rewrite Ta, Tb, !swrap_small by assumption. reflexivity.
Qed.

(** X13: a record written as the decimal text of [a], a comma and the
    decimal text of [b] (both within [0, 255], which every storage of the
    enumerations keeps; the line shorter than 32768 characters) sets the
    brush type to [a] and the fill mode to [b] and leaves the button
    memory alone.  Text after [b] that does not start with a digit is
    ignored, so of a three-field line [type,size,mode] it is the integer
    part of the second field that becomes the fill mode. *)
Theorem serial_record_round_trip
  (ibits a b : Z) (rest : string) (s : PaintIO.State) :
  16 <= ibits ->
  0 <= a < 256 -> 0 <= b < 256 ->
  Wiring.stops_number rest ->
  WString.length
    (Wiring.decimal a ++ String "," (Wiring.decimal b ++ rest)) < 32768 ->
  fst (PaintIO.checkAndParseSerial ibits
         (Some (Wiring.decimal a ++ String "," (Wiring.decimal b ++ rest))%string)
         s)
  = {| PaintIO._curBrushType := a;
       PaintIO._curBrushFillMode := b;
       PaintIO._lastShapeSelectionButtonVal :=
         PaintIO._lastShapeSelectionButtonVal s;
       PaintIO._lastDrawModeButtonVal := PaintIO._lastDrawModeButtonVal s;
       PaintIO._lastClearDrawingButtonVal :=
         PaintIO._lastClearDrawingButtonVal s |}.
Proof.
  intros. apply parse_decimal_record; try assumption; lia.
Qed.

(** The three-field line ["2,0.75,1"]: TRIANGLE, and FILL from the size
    field; the mode field is not read. *)
Lemma serial_record_round_trip_witness :
  fst (PaintIO.checkAndParseSerial 16 (Some "2,0.75,1"%string) PaintIO.globals)
  = PaintIO.mkState PaintIO.TRIANGLE PaintIO.FILL 1 1 1.
Proof.
  apply (serial_record_round_trip 16 2 0 ".75,1"%string PaintIO.globals).
  - lia.
  - lia.
  - lia.
  - reflexivity.
  - vm_compute. reflexivity.
Defined.

(** X14: a record whose brush type is above 2 (up to 255) makes
    [drawBrushInfo] call no shape primitive and caption the drawing with
    the fill word alone; and any fill mode other than 0 is shown as
    ["Outline"]. *)
Theorem unnamed_brush_draws_no_shape
  (ibits a b : Z) (rest : string) (s : PaintIO.State) :
  16 <= ibits ->
  2 < a < 256 -> 0 <= b < 256 ->
  Wiring.stops_number rest ->
  WString.length
    (Wiring.decimal a ++ String "," (Wiring.decimal b ++ rest)) < 32768 ->
  let s' := fst (PaintIO.checkAndParseSerial ibits
                   (Some (Wiring.decimal a
                          ++ String "," (Wiring.decimal b ++ rest))%string) s) in
  PaintDraw.shapeCall s' = None
  /\ PaintDraw.strBrushInfo s'
     = (if b =? 0 then "Fill"%string else "Outline"%string).
Proof.
  intros Hb Ha Hbb Hrest Hlen s'. unfold s'.
  rewrite parse_decimal_record by (assumption || lia).
  unfold PaintDraw.shapeCall, PaintDraw.strBrushInfo, PaintIO.CIRCLE,
    PaintIO.SQUARE, PaintIO.TRIANGLE, PaintIO.FILL.
  cbn [PaintIO._curBrushType PaintIO._curBrushFillMode].
  destruct (Z.eqb_spec a 0); [lia|].
  destruct (Z.eqb_spec a 1); [lia|].
  destruct (Z.eqb_spec a 2); [lia|].
  split; [reflexivity|]. destruct (b =? 0); reflexivity.
Qed.

Lemma unnamed_brush_draws_no_shape_witness :
  PaintDraw.strBrushInfo
    (fst (PaintIO.checkAndParseSerial 16 (Some "5,3"%string) PaintIO.globals))
  = "Outline"%string.
Proof.
  apply (unnamed_brush_draws_no_shape 16 5 3 EmptyString PaintIO.globals).
  - lia.
  - lia.
  - lia.
  - exact I.
  - vm_compute. reflexivity.
Defined.




(** X16: a press brings a brush type at or past the last shape back to
    CIRCLE and a fill mode at or past the last mode back to FILL, also
    from the values above the named ones that a record may have set (up
    to 254). *)
Theorem press_past_last_wraps
  (ibits sel mode : Z) (s : PaintIO.State) :
  16 <= ibits ->
  (sel = PaintIO.LOW ->
   PaintIO._lastShapeSelectionButtonVal s <> PaintIO.LOW ->
   PaintIO.TRIANGLE <= PaintIO._curBrushType s < 255 ->
   PaintIO._curBrushType (PaintIO.readBrushButtons ibits sel mode s)
   = PaintIO.CIRCLE)
  /\ (mode = PaintIO.LOW ->
      PaintIO._lastDrawModeButtonVal s <> PaintIO.LOW ->
      PaintIO.OUTLINE <= PaintIO._curBrushFillMode s < 255 ->
      PaintIO._curBrushFillMode (PaintIO.readBrushButtons ibits sel mode s)
      = PaintIO.FILL).
Proof.
  intros Hb. unfold PaintIO.TRIANGLE, PaintIO.OUTLINE, PaintIO.LOW,
    PaintIO.CIRCLE, PaintIO.FILL.
  split; intros -> Hlast Hrange; unfold PaintIO.readBrushButtons, PaintIO.LOW,
    PaintIO.NUM_BRUSH_TYPES, PaintIO.NUM_FILL_MODES;
    cbn [PaintIO._curBrushType PaintIO._curBrushFillMode].
  - destruct (Z.eqb_spec 0 (PaintIO._lastShapeSelectionButtonVal s));
      [congruence|]. simpl.
    rewrite swrap_small by lia.
    destruct (_ >=? 3) eqn:E; [reflexivity|].
    rewrite Z.geb_leb in E. apply Z.leb_gt in E. lia.
  - destruct (Z.eqb_spec 0 (PaintIO._lastDrawModeButtonVal s));
      [congruence|]. simpl.
    rewrite swrap_small by lia.
    destruct (_ >=? 2) eqn:E; [reflexivity|].
    rewrite Z.geb_leb in E. apply Z.leb_gt in E. lia.
Qed.

(** A press at the brush type 5 that the record ["5,0"] leaves. *)
Lemma press_past_last_wraps_witness :
  PaintIO._curBrushType
    (PaintIO.readBrushButtons 16 0 1 (PaintIO.mkState 5 0 1 1 1))
  = PaintIO.CIRCLE.
Proof.
  destruct (press_past_last_wraps 16 0 1 (PaintIO.mkState 5 0 1 1 1))
    as [Hbrush _].
  - lia.
  - apply Hbrush.
    + reflexivity.
    + discriminate.
    + simpl. unfold PaintIO.TRIANGLE. lia.
Defined.

(** X17: the clear button is reported exactly on a change to LOW, so
    never on two passes in a row, and checking it leaves the brush type
    and the fill mode alone. *)
Theorem clear_button_reports_edges (v1 v2 : Z) (s : PaintIO.State) :
  (snd (PaintIO.checkClearDrawingButton v1 s) = true
   <-> v1 = PaintIO.LOW /\ PaintIO._lastClearDrawingButtonVal s <> PaintIO.LOW)
  /\ ~ (snd (PaintIO.checkClearDrawingButton v1 s) = true
        /\ snd (PaintIO.checkClearDrawingButton v2
                  (fst (PaintIO.checkClearDrawingButton v1 s))) = true)
  /\ PaintIO._curBrushType (fst (PaintIO.checkClearDrawingButton v1 s))
     = PaintIO._curBrushType s
  /\ PaintIO._curBrushFillMode (fst (PaintIO.checkClearDrawingButton v1 s))
     = PaintIO._curBrushFillMode s.
Proof.
  unfold PaintIO.checkClearDrawingButton, PaintIO.LOW. cbn [fst snd].
  cbn [PaintIO._lastClearDrawingButtonVal PaintIO._curBrushType
       PaintIO._curBrushFillMode].
  repeat split.
  - apply andb_true_iff in H. destruct H as [H _].
    apply Z.eqb_eq in H. exact H.
  - apply andb_true_iff in H. destruct H as [H1 H2].
    apply Z.eqb_eq in H1. subst v1.
    apply negb_true_iff in H2. apply Z.eqb_neq in H2. congruence.
  - intros [-> Hne]. apply andb_true_iff. split; [reflexivity|].
    apply negb_true_iff. apply Z.eqb_neq. congruence.
  - intros [H1 H2].
    apply andb_true_iff in H1. destruct H1 as [H1 _].
    apply andb_true_iff in H2. destruct H2 as [H2 H3].
    apply Z.eqb_eq in H1. apply Z.eqb_eq in H2. subst v1 v2.
    discriminate H3.
Qed.

(** X18: in one pass the buttons act on what the serial line has just
    set: a record [a,b] of named values and a press of both buttons in
    the same pass leave the shape after [a] and the mode after [b]. *)
Theorem record_then_press_in_one_pass
  (ibits a b clear : Z) (s : PaintIO.State) :
  16 <= ibits ->
  0 <= a <= 2 -> 0 <= b <= 1 ->
  PaintIO._lastShapeSelectionButtonVal s <> PaintIO.LOW ->
  PaintIO._lastDrawModeButtonVal s <> PaintIO.LOW ->
  let s' := fst (PaintDraw.loop_brush ibits
                   (Some (Wiring.decimal a
                          ++ String "," (Wiring.decimal b))%string)
                   PaintIO.LOW PaintIO.LOW clear s) in
  PaintIO._curBrushType s' = (a + 1) mod PaintIO.NUM_BRUSH_TYPES
  /\ PaintIO._curBrushFillMode s' = (b + 1) mod PaintIO.NUM_FILL_MODES.
Proof.
  intros Hb Ha Hbb Hl1 Hl2 s'. unfold s', PaintDraw.loop_brush.
  assert (Hlen : WString.length
            (Wiring.decimal a ++ String "," (Wiring.decimal b ++ "")) < 32768).
  { assert (Ha' : a = 0 \/ a = 1 \/ a = 2) by lia.
    assert (Hb' : b = 0 \/ b = 1) by lia.
    destruct Ha' as [-> | [-> | ->]]; destruct Hb' as [-> | ->];
      vm_compute; reflexivity. }
  assert (Happ : forall t, (t ++ "")%string = t).
  { induction t as [|c r IH]; simpl; [reflexivity | rewrite IH; reflexivity]. }
  pose proof (parse_decimal_record ibits a b EmptyString s Hb
                ltac:(lia) ltac:(lia) I Hlen) as Hparse.
  rewrite Happ in Hparse. rewrite Hparse.
  unfold PaintIO.checkClearDrawingButton, PaintIO.readBrushButtons,
    PaintIO.LOW, PaintIO.NUM_BRUSH_TYPES, PaintIO.NUM_FILL_MODES,
    PaintIO.CIRCLE, PaintIO.FILL in *.
  cbn [fst PaintIO._curBrushType PaintIO._curBrushFillMode
       PaintIO._lastShapeSelectionButtonVal PaintIO._lastDrawModeButtonVal].
  destruct (Z.eqb_spec 0 (PaintIO._lastShapeSelectionButtonVal s));
    [congruence|].
  destruct (Z.eqb_spec 0 (PaintIO._lastDrawModeButtonVal s)); [congruence|].
  simpl. rewrite !swrap_small by lia.
  assert (Ha' : a = 0 \/ a = 1 \/ a = 2) by lia.
  assert (Hb' : b = 0 \/ b = 1) by lia.
  destruct Ha' as [-> | [-> | ->]]; destruct Hb' as [-> | ->];
    split; reflexivity.
Qed.

(** The record ["2,1"] arriving in the pass in which both buttons go
    down. *)
Lemma record_then_press_in_one_pass_witness :
  PaintIO._curBrushType
    (fst (PaintDraw.loop_brush 16 (Some "2,1"%string) 0 0 1 PaintIO.globals))
  = PaintIO.CIRCLE.
Proof.
  apply (record_then_press_in_one_pass 16 2 1 1 PaintIO.globals).
  - lia.
  - lia.
  - lia.
  - discriminate.
  - discriminate.
Defined.
